(** * dna-web: identity resolution and deduplication of model signatures

    A shallow embedding of [scripts/process_data.py].  The script scans a
    directory for [*_dna.json] signature files, derives a model identity
    from each file name, keeps one record per file-derived name and hands
    the retained signatures to t-SNE.

    Conventions of the embedding:
    - a Python [str] is a [string], read as its UTF-8 bytes: membership,
      [split], [replace], [join] and comparison with ASCII arguments act
      on the bytes as they act on the characters;
    - [PyStr.lower], [PyStr.title] and the character classes of [Re] and
      [ReConfig] are those of ASCII text: they run the pipeline on ASCII
      names and files.  What Python does outside ASCII is not written
      down here; the statements that depend on it are made over given
      case mappings (section [CaseMapping]) and over a given alphabet and
      digit class (module [ReChar]), or carry the hypothesis [is_ascii];
    - [dict] values are association lists in insertion order, as Python
      dictionaries iterate in that order;
    - directory scanning, file reading and the numeric library are inputs:
      the scan result is a list of files with their parsed content, and
      [np.array] + [TSNE.fit_transform] is one function parameter that may
      raise; writing the output file is taken to succeed. *)

From Stdlib Require Import Bool Arith NArith ZArith List Ascii String Lia.
From Stdlib Require Import DecimalString PrimFloat.
Import ListNotations.
Open Scope string_scope.

(** ** Python string methods used by the script *)

Module PyStr.

Definition in_range (lo hi : N) (c : ascii) : bool :=
  let n := N_of_ascii c in ((lo <=? n) && (n <=? hi))%N.

Definition is_upper : ascii -> bool := in_range 65 90.
Definition is_lower : ascii -> bool := in_range 97 122.
Definition is_digit : ascii -> bool := in_range 48 57.
Definition is_cased (c : ascii) : bool := is_upper c || is_lower c.

Definition to_lower (c : ascii) : ascii :=
  if is_upper c then ascii_of_N (N_of_ascii c + 32) else c.
Definition to_upper (c : ascii) : ascii :=
  if is_lower c then ascii_of_N (N_of_ascii c - 32) else c.

(** [s.lower()] *)
Fixpoint lower (s : string) : string :=
  match s with
  | EmptyString => EmptyString
  | String c s' => String (to_lower c) (lower s')
  end.

(** [s.title()]: a character that follows a cased character is lowered,
    any other character is upper-cased; the flag is the casedness of the
    character just read. *)
Fixpoint title_from (previous_is_cased : bool) (s : string) : string :=
  match s with
  | EmptyString => EmptyString
  | String c s' =>
      String (if previous_is_cased then to_lower c else to_upper c)
             (title_from (is_cased c) s')
  end.

Definition title : string -> string := title_from false.

(** [sub in s] *)
Fixpoint contains (sub s : string) : bool :=
  prefix sub s ||
  match s with
  | EmptyString => false
  | String _ s' => contains sub s'
  end.

(** [s.startswith(p)] and [s.endswith(p)] *)
Definition startswith (p s : string) : bool := prefix p s.

Fixpoint endswith (p s : string) : bool :=
  (s =? p) ||
  match s with
  | EmptyString => false
  | String _ s' => endswith p s'
  end.

(** [s.split(sep)] for a one-character separator; the result is never
    empty. *)
Fixpoint split (sep : ascii) (s : string) : list string :=
  match s with
  | EmptyString => [EmptyString]
  | String c s' =>
      if Ascii.eqb c sep then EmptyString :: split sep s'
      else match split sep s' with
           | h :: t => String c h :: t
           | [] => [String c EmptyString]
           end
  end.

(** [sep.join(parts)] *)
Definition join (sep : string) (parts : list string) : string :=
  concat sep parts.

(** [s.replace(old, new)] for a non-empty [old]: occurrences are replaced
    left to right without overlap.  [skip] counts the characters of a
    matched occurrence still to be dropped. *)
Fixpoint replace_from (skip : nat) (old new s : string) : string :=
  match s with
  | EmptyString => EmptyString
  | String c s' =>
      match skip with
      | S k => replace_from k old new s'
      | O =>
          if prefix old s
          then new ++ replace_from (String.length old - 1) old new s'
          else String c (replace_from 0 old new s')
      end
  end.

Definition replace (old new s : string) : string := replace_from 0 old new s.

(** [s.rfind(c)] for one character: the last index of [c], if any. *)
Fixpoint rfind (c : ascii) (s : string) : option nat :=
  match s with
  | EmptyString => None
  | String a s' =>
      match rfind c s' with
      | Some i => Some (S i)
      | None => if Ascii.eqb a c then Some 0 else None
      end
  end.

End PyStr.

(** ** The regular expression of [extract_params]

    [re.search(r'(\d+(\.\d+)?)B', name, re.IGNORECASE)], as the backtracking
    matcher runs it: greedy quantifiers try the longest match first and
    give characters back when the rest of the pattern fails; a
    continuation [k] stands for the rest of the pattern and receives the
    text captured so far and the remaining input. *)

Module Re.

Definition kont := string -> string -> option string.

(** [\d*], greedy: [cap] is the text already captured. *)
Fixpoint digits_star (s cap : string) (k : kont) : option string :=
  match s with
  | String c s' =>
      if PyStr.is_digit c then
        match digits_star s' (cap ++ String c EmptyString) k with
        | Some g => Some g
        | None => k cap s
        end
      else k cap s
  | EmptyString => k cap s
  end.

(** [\d+], greedy. *)
Definition digits_plus (s cap : string) (k : kont) : option string :=
  match s with
  | String c s' =>
      if PyStr.is_digit c
      then digits_star s' (cap ++ String c EmptyString) k
      else None
  | EmptyString => None
  end.

(** The literal [B] under [re.IGNORECASE], last item of the pattern: the
    match succeeds with group 1. *)
Definition is_B (c : ascii) : bool :=
  Ascii.eqb (PyStr.to_lower c) "b"%char.

Definition literal_B : kont :=
  fun cap s =>
    match s with
    | String c _ => if is_B c then Some cap else None
    | EmptyString => None
    end.

(** [(\.\d+)?], greedy: the group is tried first, then skipped. *)
Definition opt_fraction (k : kont) : kont :=
  fun cap s =>
    let with_fraction :=
      match s with
      | String c s' =>
          if Ascii.eqb c "."%char
          then digits_plus s' (cap ++ String c EmptyString) k
          else None
      | EmptyString => None
      end in
    match with_fraction with
    | Some g => Some g
    | None => k cap s
    end.

(** The whole pattern anchored at the start of [s]; the result is
    [match.group(1)]. *)
Definition match_here (s : string) : option string :=
  digits_plus s EmptyString (opt_fraction literal_B).

(** [re.search]: the leftmost position at which the pattern matches. *)
Fixpoint search (s : string) : option string :=
  match match_here s with
  | Some g => Some g
  | None =>
      match s with
      | String _ s' => search s'
      | EmptyString => None
      end
  end.

End Re.

(** ** [extract_params] *)

Definition extract_params (name : string) : string :=
  match Re.search name with
  | Some group1 => group1 ++ "B"
  | None => "Unknown"
  end.

(** ** [extract_params] over any alphabet

    Python runs the pattern on the characters of a [str], where [\d] is
    every decimal digit of Unicode.  The matcher below is the one of [Re]
    with the characters and the digit class given: [char] with its
    equality test, [of_ascii] for the characters the script writes down,
    and [is_digit] for [\d].  A name is a list of characters. *)

Module ReChar.

Section Alphabet.

Variable char : Type.
Variable char_eqb : char -> char -> bool.
Variable of_ascii : ascii -> char.
Variable is_digit : char -> bool.

(** A text of the script, as characters. *)
Definition text (s : string) : list char :=
  map of_ascii (list_ascii_of_string s).

Definition kont : Type := list char -> list char -> option (list char).

(** [\d*], greedy: [cap] is the text already captured. *)
Fixpoint digits_star (s cap : list char) (k : kont) : option (list char) :=
  match s with
  | c :: s' =>
      if is_digit c then
        match digits_star s' (cap ++ [c])%list k with
        | Some g => Some g
        | None => k cap s
        end
      else k cap s
  | [] => k cap s
  end.

(** [\d+], greedy. *)
Definition digits_plus (s cap : list char) (k : kont) : option (list char) :=
  match s with
  | c :: s' =>
      if is_digit c then digits_star s' (cap ++ [c])%list k else None
  | [] => None
  end.

(** [\.] *)
Definition is_dot (c : char) : bool := char_eqb c (of_ascii ".").

(** The literal [B] under [re.IGNORECASE]. *)
Definition is_B (c : char) : bool :=
  char_eqb c (of_ascii "b") || char_eqb c (of_ascii "B").

Definition literal_B : kont :=
  fun cap s =>
    match s with
    | c :: _ => if is_B c then Some cap else None
    | [] => None
    end.

(** [(\.\d+)?], greedy: the group is tried first, then skipped. *)
Definition opt_fraction (k : kont) : kont :=
  fun cap s =>
    let with_fraction :=
      match s with
      | c :: s' =>
          if is_dot c then digits_plus s' (cap ++ [c])%list k else None
      | [] => None
      end in
    match with_fraction with
    | Some g => Some g
    | None => k cap s
    end.

(** The whole pattern anchored at the start of [s]; the result is
    [match.group(1)]. *)
Definition match_here (s : list char) : option (list char) :=
  digits_plus s [] (opt_fraction literal_B).

(** [re.search]: the leftmost position at which the pattern matches. *)
Fixpoint search (s : list char) : option (list char) :=
  match match_here s with
  | Some g => Some g
  | None =>
      match s with
      | _ :: s' => search s'
      | [] => None
      end
  end.

Definition extract_params_over (name : list char) : list char :=
  match search name with
  | Some group1 => (group1 ++ text "B")%list
  | None => text "Unknown"
  end.

End Alphabet.

End ReChar.

(** ** [load_config]

    [re.search] with the pattern [dataset:\s*Q(N+)Q], where the class [Q]
    holds the single and the double quote and the class [N] every other
    character: the literal text, white space, an opening quote of either
    kind, the captured name and a closing quote of either kind.  As in
    [Re], greedy items try the longest match first and give characters
    back when the rest fails. *)

Module ReConfig.

(** [\s] on ASCII: tab to carriage return, the four separators, space. *)
Definition is_space (c : ascii) : bool :=
  let n := N_of_ascii c in
  (((9 <=? n) && (n <=? 13)) || ((28 <=? n) && (n <=? 32)))%N.

(** The class of the two quote characters. *)
Definition is_quote (c : ascii) : bool :=
  Ascii.eqb c "'"%char || Ascii.eqb c "034"%char.

Definition kont := string -> string -> option string.

(** A literal text. *)
Fixpoint literal (text s : string) (k : string -> option string)
  : option string :=
  match text with
  | EmptyString => k s
  | String a text' =>
      match s with
      | String b s' => if Ascii.eqb a b then literal text' s' k else None
      | EmptyString => None
      end
  end.

(** [\s*], greedy. *)
Fixpoint spaces_star (s : string) (k : string -> option string)
  : option string :=
  match s with
  | String c s' =>
      if is_space c then
        match spaces_star s' k with
        | Some g => Some g
        | None => k s
        end
      else k s
  | EmptyString => k s
  end.

(** One quote character. *)
Definition quote (k : string -> option string) (s : string) : option string :=
  match s with
  | String c s' => if is_quote c then k s' else None
  | EmptyString => None
  end.

(** The rest of the class repetition, greedy: [cap] is the text captured
    so far. *)
Fixpoint name_star (s cap : string) (k : kont) : option string :=
  match s with
  | String c s' =>
      if is_quote c then k cap s
      else
        match name_star s' (cap ++ String c EmptyString) k with
        | Some g => Some g
        | None => k cap s
        end
  | EmptyString => k cap s
  end.

(** One or more characters other than quotes, greedy. *)
Definition name_plus (s cap : string) (k : kont) : option string :=
  match s with
  | String c s' =>
      if is_quote c then None
      else name_star s' (cap ++ String c EmptyString) k
  | EmptyString => None
  end.

(** The closing quote, last item of the pattern: the match succeeds with
    group 1. *)
Definition closing_quote : kont :=
  fun cap s =>
    match s with
    | String c _ => if is_quote c then Some cap else None
    | EmptyString => None
    end.

(** The whole pattern anchored at the start of [s]; the result is
    [match.group(1)]. *)
Definition match_here (s : string) : option string :=
  literal "dataset:" s
    (fun s1 => spaces_star s1
       (quote (fun s2 => name_plus s2 EmptyString closing_quote))).

(** [re.search]: the leftmost position at which the pattern matches. *)
Fixpoint search (s : string) : option string :=
  match match_here s with
  | Some g => Some g
  | None =>
      match s with
      | String _ s' => search s'
      | EmptyString => None
      end
  end.

End ReConfig.

Definition default_dataset : string := "squad_cqa_hs_wg_arc_mmlu".

(** [config_js] is the text of [config.js], [None] when the file does not
    exist; the result is the value stored under ['dataset']. *)
Definition load_config (config_js : option string) : string :=
  match config_js with
  | None => default_dataset
  | Some content =>
      match ReConfig.search content with
      | Some group1 => group1
      | None => default_dataset
      end
  end.

(** ** Identity resolution (the body of the loop of [collect_signatures]) *)

Record ModelIdentity := mkIdentity {
  full_id : string;
  organization : string;
  displayName : string;
  family : string;
  parameterSize : string;
  isInstructTuned : bool
}.

(** The organization and the display name before normalisation: the
    underscore split, else the keyword table. *)
Definition guess_org_name (model_id : string) : string * string :=
  let clean_id := PyStr.lower model_id in
  if PyStr.contains "_" model_id then
    let parts := PyStr.split "_" model_id in
    (hd EmptyString parts, PyStr.join "_" (tl parts))
  else if PyStr.contains "meta-llama" clean_id then
    ("Meta Llama",
     PyStr.replace "meta-llama-" "" (PyStr.replace "fine-tuned-" "" model_id))
  else if PyStr.contains "qwen" clean_id then ("Qwen", model_id)
  else if PyStr.contains "mistral" clean_id then ("Mistral", model_id)
  else if PyStr.contains "01-ai" clean_id then ("01-ai", model_id)
  else if PyStr.contains "google" clean_id then ("Google", model_id)
  else if PyStr.contains "microsoft" clean_id then ("Microsoft", model_id)
  else ("Others", model_id).

(** A generic organization falls back to the text before the first hyphen. *)
Definition resolve_placeholder (model_id org : string) : string :=
  if (org =? "Unknown") || (org =? "Others") then
    if PyStr.contains "-" model_id
    then hd EmptyString (PyStr.split "-" model_id)
    else org
  else org.

(** [org.replace('-', ' ').title()] *)
Definition clean_org (org : string) : string :=
  PyStr.title (PyStr.replace "-" " " org).

(** The three "special fixes", each tested on the current value. *)
Definition special_fixes (org : string) : string :=
  let org1 :=
    if PyStr.contains "Meta Llama" org || PyStr.contains "Llama" org
    then "Meta Llama" else org in
  let org2 := if PyStr.contains "01 Ai" org1 then "01-ai" else org1 in
  if PyStr.contains "Qwen" org2 then "Qwen" else org2.

(** The organization after hyphen replacement and title-casing, before the
    special fixes. *)
Definition titled_org (model_id : string) : string :=
  clean_org (resolve_placeholder model_id (fst (guess_org_name model_id))).

Definition family_of (full_id_lower : string) : string :=
  if PyStr.contains "llama" full_id_lower then "Llama"
  else if PyStr.contains "qwen" full_id_lower then "Qwen"
  else if PyStr.contains "mistral" full_id_lower then "Mistral"
  else if PyStr.contains "gemma" full_id_lower then "Gemma"
  else if PyStr.contains "phi" full_id_lower then "Phi"
  else if PyStr.contains "yi" full_id_lower then "Yi"
  else if PyStr.contains "falcon" full_id_lower then "Falcon"
  else if PyStr.contains "deepseek" full_id_lower then "DeepSeek"
  else "Unknown".

Definition resolve (model_id : string) : ModelIdentity :=
  let org := special_fixes (titled_org model_id) in
  let name := snd (guess_org_name model_id) in
  let full_id := org ++ "/" ++ name in
  let full_id_lower := PyStr.lower full_id in
  {| full_id := full_id;
     organization := org;
     displayName := name;
     family := family_of full_id_lower;
     parameterSize := extract_params model_id;
     isInstructTuned :=
       PyStr.contains "instruct" full_id_lower
       || PyStr.contains "chat" full_id_lower |}.

(** ** The organization over Python's own case mappings

    Lines 67-109 with [str.lower] and [str.title] given: [lower] and
    [title] stand for the two methods, whatever they do to letters outside
    ASCII.  [guess_org_name], [clean_org] and [titled_org] above are these
    definitions at [PyStr.lower] and [PyStr.title]. *)

Section CaseMapping.

Variable lower : string -> string.
Variable title : string -> string.

Definition guess_org_name_with (model_id : string) : string * string :=
  let clean_id := lower model_id in
  if PyStr.contains "_" model_id then
    let parts := PyStr.split "_" model_id in
    (hd EmptyString parts, PyStr.join "_" (tl parts))
  else if PyStr.contains "meta-llama" clean_id then
    ("Meta Llama",
     PyStr.replace "meta-llama-" "" (PyStr.replace "fine-tuned-" "" model_id))
  else if PyStr.contains "qwen" clean_id then ("Qwen", model_id)
  else if PyStr.contains "mistral" clean_id then ("Mistral", model_id)
  else if PyStr.contains "01-ai" clean_id then ("01-ai", model_id)
  else if PyStr.contains "google" clean_id then ("Google", model_id)
  else if PyStr.contains "microsoft" clean_id then ("Microsoft", model_id)
  else ("Others", model_id).

(** [org.replace('-', ' ').title()] *)
Definition clean_org_with (org : string) : string :=
  title (PyStr.replace "-" " " org).

(** The organization after hyphen replacement and title-casing, before the
    special fixes. *)
Definition titled_org_with (model_id : string) : string :=
  clean_org_with
    (resolve_placeholder model_id (fst (guess_org_name_with model_id))).

(** The value of [org] at line 111, and the value of [name]. *)
Definition organization_with (model_id : string) : string :=
  special_fixes (titled_org_with model_id).

Definition display_name_with (model_id : string) : string :=
  snd (guess_org_name_with model_id).

(** The family, read off the lower-cased [full_id] (lines 111-123). *)
Definition family_with (model_id : string) : string :=
  family_of
    (lower (organization_with model_id ++ "/" ++ display_name_with model_id)).

End CaseMapping.

(** ** Scanned files and records *)

(** A value produced by [json.load]. *)
#[warnings="-register-all"] Inductive pyobj :=
| PyNone
| PyBool (b : bool)
| PyInt (z : Z)
| PyFloat (x : float)
| PyStr (s : string)
| PyList (items : list pyobj)
| PyDict (entries : list (string * pyobj)).

(** One path yielded by [rglob], with the outcome of [open] + [json.load]:
    [None] when either raises. *)
Record scanned_file := mkFile {
  dna_path : string;
  content : option pyobj
}.

(** The dictionary built for a model; [r_xy] is set by [main] only. *)
Record record := mkRecord {
  r_id : string;
  r_name : string;
  r_organization : string;
  r_family : string;
  r_signature : list pyobj;
  r_parameters : string;
  r_isInstruct : bool;
  r_xy : option (float * float)
}.

(** [dna_path.name] and [dna_path.stem] of a POSIX path. *)
Definition path_name (p : string) : string :=
  last (PyStr.split "/" p) EmptyString.

Definition path_stem (p : string) : string :=
  let name := path_name p in
  match PyStr.rfind "." name with
  | Some i =>
      if ((0 <? i) && (i <? String.length name - 1))%nat
      then substring 0 i name else name
  | None => name
  end.

(** [data.get(key)] on a dictionary. *)
Fixpoint dict_get (key : string) (entries : list (string * pyobj))
  : option pyobj :=
  match entries with
  | [] => None
  | (k, v) :: rest => if k =? key then Some v else dict_get key rest
  end.

(** [1 if "embed" in str(dna_path).lower() else 0] *)
Definition is_embed (path : string) : nat :=
  if PyStr.contains "embed" (PyStr.lower path) then 1 else 0.

Definition make_record (model_id : string) (sig : list pyobj) : record :=
  let ident := resolve model_id in
  {| r_id := full_id ident;
     r_name := model_id;
     r_organization := organization ident;
     r_family := family ident;
     r_signature := sig;
     r_parameters := parameterSize ident;
     r_isInstruct := isInstructTuned ident;
     r_xy := None |}.

(** What one iteration of the loop does with a file, before the table is
    touched. *)
Inductive outcome :=
| Skipped                       (* [continue] *)
| Failed                        (* an exception, caught and printed *)
| Candidate (model_id : string) (score : nat) (rec : record).

Definition process_file (f : scanned_file) : outcome :=
  if PyStr.endswith "_DRYRUN.json" (path_name (dna_path f)) then Skipped
  else
    match content f with
    | None => Failed
    | Some (PyDict entries) =>
        match dict_get "signature" entries with
        | Some (PyList (x :: sig)) =>
            let model_id := PyStr.replace "_dna" "" (path_stem (dna_path f)) in
            Candidate model_id (is_embed (dna_path f))
                      (make_record model_id (x :: sig))
        | _ => Skipped
        end
    | Some _ => Failed
    end.

(** ** Deduplication table: [best_signature] *)

Definition table := list (string * (nat * record)).

Fixpoint lookup (key : string) (t : table) : option (nat * record) :=
  match t with
  | [] => None
  | (k, v) :: rest => if k =? key then Some v else lookup key rest
  end.

(** [t[key] = v]: an existing key keeps its position, a new one goes last. *)
Fixpoint store (key : string) (v : nat * record) (t : table) : table :=
  match t with
  | [] => [(key, v)]
  | (k, w) :: rest =>
      if k =? key then (k, v) :: rest else (k, w) :: store key v rest
  end.

(** [if model_id not in best_signature or
        is_embed > best_signature[model_id][0]: ...] *)
Definition keep_best (best_signature : table) (model_id : string)
                 (score : nat) (rec : record) : table :=
  match lookup model_id best_signature with
  | None => store model_id (score, rec) best_signature
  | Some (stored, _) =>
      if (stored <? score)%nat then store model_id (score, rec) best_signature
      else best_signature
  end.

Definition scan_file (best_signature : table) (f : scanned_file) : table :=
  match process_file f with
  | Candidate model_id score rec => keep_best best_signature model_id score rec
  | _ => best_signature
  end.

Definition scan (files : list scanned_file) : table :=
  fold_left scan_file files [].

Definition collect_signatures (files : list scanned_file) : list record :=
  map (fun item => snd (snd item)) (scan files).

(** ** The driver: [main] *)

Record output := mkOutput {
  meta_count : nat;
  meta_dataset : string;
  meta_generated : bool;
  models : list record
}.

(** What the run does to the outside world, in order.  [ErrorReading] is
    the line printed by the [except] clause (the exception text is not
    modelled). *)
Inductive event :=
| Print (line : string)
| ErrorReading (path : string)
| FitTransform (perplexity : nat) (vectors : list (list pyobj))
| WriteJson (path : string) (doc : output).

Inductive exit_status :=
| Returned
| SysExit (code : nat)
| Raised.                       (* an uncaught exception *)

(** The inputs of a run: the configured dataset name, the two paths
    [main] derives from it, whether the dataset directory exists, and the
    files found under it. *)
Record environment := mkEnv {
  dataset_name : string;
  dna_out_dir : string;
  output_file : string;
  dir_exists : bool;
  files : list scanned_file
}.

Definition str_of_nat (n : nat) : string :=
  NilEmpty.string_of_uint (Nat.to_uint n).

Definition scan_log (dataset_dir : string) (fs : list scanned_file)
  : list event :=
  Print ("Scanning " ++ dataset_dir ++ "...")
  :: flat_map (fun f => match process_file f with
                        | Failed => [ErrorReading (dna_path f)]
                        | _ => []
                        end) fs.

(** The loop over [enumerate(records)]: row [i] of the embedding gives the
    coordinates of record [i]; a missing row raises. *)
Fixpoint assign_coordinates (i : nat) (records : list record)
                            (embeddings : list (float * float))
  : option (list record) :=
  match records with
  | [] => Some []
  | r :: rest =>
      match nth_error embeddings i, assign_coordinates (S i) rest embeddings with
      | Some xy, Some out =>
          Some ({| r_id := r_id r; r_name := r_name r;
                   r_organization := r_organization r;
                   r_family := r_family r;
                   r_signature := r_signature r;
                   r_parameters := r_parameters r;
                   r_isInstruct := r_isInstruct r;
                   r_xy := Some xy |} :: out)
      | _, _ => None
      end
  end.

Section Driver.

(** [TSNE(n_components=2, perplexity=..., random_state=42)
      .fit_transform(np.array(vectors))]; [None] when it raises. *)
Variable fit_transform :
  nat -> list (list pyobj) -> option (list (float * float)).

Definition main (env : environment) : list event * exit_status :=
  if negb (dir_exists env) then
    ([Print ("Dataset directory not found: " ++ dna_out_dir env)], SysExit 1)
  else
    let records := collect_signatures (files env) in
    let log :=
      (scan_log (dna_out_dir env) (files env)
       ++ [Print ("Found " ++ str_of_nat (List.length records) ++ " models")])%list
    in
    if (List.length records <? 2)%nat then
      ((log ++ [Print "Not enough models for t-SNE"])%list, SysExit 1)
    else
      let vectors := map r_signature records in
      let perplexity := Nat.min 30 (List.length records - 1) in
      let log :=
        (log ++ [Print "Running t-SNE..."; FitTransform perplexity vectors])%list
      in
      match fit_transform perplexity vectors with
      | None => (log, Raised)
      | Some embeddings =>
          match assign_coordinates 0 records embeddings with
          | None => (log, Raised)
          | Some models_out =>
              ((log ++ [WriteJson (output_file env)
                         {| meta_count := List.length models_out;
                            meta_dataset := dataset_name env;
                            meta_generated := true;
                            models := models_out |};
                       Print ("Database written to " ++ output_file env)])%list,
               Returned)
          end
      end.

End Driver.

(** Events of a trace that reach the embedding stage or the output file. *)
Definition is_embedding_call (e : event) : bool :=
  match e with FitTransform _ _ => true | _ => false end.

Definition is_write (e : event) : bool :=
  match e with WriteJson _ _ => true | _ => false end.

(** ** Reading the claims: auxiliary notions

    These definitions say what the statements below mean; the script has
    no counterpart for them. *)

(** One of the organization keywords occurs in the lower-cased name. *)
Definition known_keyword (clean_id : string) : bool :=
  PyStr.contains "meta-llama" clean_id
  || PyStr.contains "qwen" clean_id
  || PyStr.contains "mistral" clean_id
  || PyStr.contains "01-ai" clean_id
  || PyStr.contains "google" clean_id
  || PyStr.contains "microsoft" clean_id.

(** The organization a prefix leads to, over a given [title]. *)
Definition canonical_org_with (title : string -> string)
           (model_id prefix : string) : string :=
  special_fixes (clean_org_with title (resolve_placeholder model_id prefix)).

(** The organization a prefix leads to: the placeholder fallback, the
    cleaning and the special fixes applied to it. *)
Definition canonical_org (model_id prefix : string) : string :=
  special_fixes (clean_org (resolve_placeholder model_id prefix)).

(** A numeric token: digits, optionally followed by a dot and digits. *)
Fixpoint digits_only (s : string) : bool :=
  match s with
  | EmptyString => true
  | String c s' => PyStr.is_digit c && digits_only s'
  end.

Definition all_digits (d : string) : Prop :=
  d <> EmptyString /\ digits_only d = true.

Definition numeric_token (t : string) : Prop :=
  all_digits t \/
  exists d e, all_digits d /\ all_digits e /\ t = d ++ "." ++ e.

Definition letter_B (c : ascii) : Prop := c = "b"%char \/ c = "B"%char.

(** [t] is a numeric token of [name] that starts right after [pre] and is
    immediately followed by the letter B. *)
Definition token_at (name pre t : string) : Prop :=
  numeric_token t /\
  exists c post, letter_B c /\ name = pre ++ t ++ String c post.

(** [t] is the first such token of [name]: none starts further left. *)
Definition first_token (name t : string) : Prop :=
  exists pre,
    token_at name pre t /\
    forall pre' t', token_at name pre' t' ->
                    String.length pre <= String.length pre'.

(** No digit sequence of [name] is immediately followed by the letter B. *)
Definition no_digits_before_B (name : string) : Prop :=
  forall pre d c post,
    name = pre ++ d ++ String c post -> all_digits d -> ~ letter_B c.

(** The longest run of digits at the start of [s], and what follows it. *)
Fixpoint take_digits (s : string) : string :=
  match s with
  | String c s' =>
      if PyStr.is_digit c then String c (take_digits s') else EmptyString
  | EmptyString => EmptyString
  end.

Fixpoint drop_digits (s : string) : string :=
  match s with
  | String c s' => if PyStr.is_digit c then drop_digits s' else s
  | EmptyString => EmptyString
  end.

(** The key and the record a file contributes, when it is a candidate. *)
Definition candidate_key (f : scanned_file) : option string :=
  match process_file f with
  | Candidate model_id _ _ => Some model_id
  | _ => None
  end.

Definition candidate_record (f : scanned_file) : option record :=
  match process_file f with
  | Candidate _ _ rec => Some rec
  | _ => None
  end.

(** The record retained for a key at the end of a scan. *)
Definition retained (key : string) (fs : list scanned_file) : option record :=
  option_map snd (lookup key (scan fs)).

(** Sample inputs: two runs of one model, one of them under an [embed]
    folder, another model, and an unreadable file. *)
Definition sample_embed_file : scanned_file :=
  mkFile "dna-out/d/embed/meta-llama_Llama-3-8B_dna.json"
         (Some (PyDict [("signature", PyList [PyInt 1; PyInt 2])])).

Definition sample_plain_file : scanned_file :=
  mkFile "dna-out/d/base/meta-llama_Llama-3-8B_dna.json"
         (Some (PyDict [("signature", PyList [PyInt 3; PyInt 4])])).

Definition sample_other_file : scanned_file :=
  mkFile "dna-out/d/base/Qwen_Qwen2-7B_dna.json"
         (Some (PyDict [("signature", PyList [PyInt 5; PyInt 6])])).

Definition sample_broken_file : scanned_file :=
  mkFile "dna-out/d/broken_dna.json" None.

Definition sample_env : environment :=
  mkEnv "d" "dna-out/d" "public/dna_database.json" true
        [sample_other_file; sample_broken_file].

(** An embedding stage that always raises. *)
Definition failing_fit_transform (perplexity : nat)
           (vectors : list (list pyobj)) : option (list (float * float)) :=
  None.

(** A continuation of the matcher that fails on input starting with a
    digit. *)
Definition rejects_digit (k : Re.kont) : Prop :=
  forall cap c r, PyStr.is_digit c = true -> k cap (String c r) = None.

(** The keys of the candidates of a scan, in scan order, with repeats. *)
Definition candidate_keys (fs : list scanned_file) : list string :=
  flat_map (fun f => match candidate_key f with
                     | Some k => [k]
                     | None => []
                     end) fs.

(** A list of keys without its repeats: each key stays where it first
    occurs. *)
Fixpoint first_occurrences (keys : list string) : list string :=
  match keys with
  | [] => []
  | k :: rest =>
      k :: filter (fun x => negb (x =? k)) (first_occurrences rest)
  end.

(** A record with its coordinates set. *)
Definition set_xy (r : record) (xy : float * float) : record :=
  {| r_id := r_id r; r_name := r_name r;
     r_organization := r_organization r;
     r_family := r_family r;
     r_signature := r_signature r;
     r_parameters := r_parameters r;
     r_isInstruct := r_isInstruct r;
     r_xy := Some xy |}.

(** More sample inputs: a scan with two models, and an embedding stage
    that puts every model at the origin. *)
Definition sample_env_two : environment :=
  mkEnv "d" "dna-out/d" "public/dna_database.json" true
        [sample_plain_file; sample_other_file; sample_broken_file;
         sample_embed_file].

Definition origin_fit_transform (perplexity : nat)
           (vectors : list (list pyobj)) : option (list (float * float)) :=
  Some (map (fun _ => (0%float, 0%float)) vectors).

(** The organization keywords as an ordered table: the keyword looked for
    in the lower-cased name, and the organization it stands for. *)
Definition keyword_table : list (string * string) :=
  [("meta-llama", "Meta Llama"); ("qwen", "Qwen"); ("mistral", "Mistral");
   ("01-ai", "01-ai"); ("google", "Google"); ("microsoft", "Microsoft")].

Definition first_keyword (clean_id : string) : option (string * string) :=
  find (fun entry => PyStr.contains (fst entry) clean_id) keyword_table.

(** What [load_config] looks for: after [pre], the text [dataset:], white
    space, a quote, the non-empty quote-free [name], and a quote. *)
Fixpoint all_chars (p : ascii -> bool) (s : string) : bool :=
  match s with
  | EmptyString => true
  | String c s' => p c && all_chars p s'
  end.

Definition not_quote (c : ascii) : bool := negb (ReConfig.is_quote c).

(** A text of ASCII characters only. *)
Definition is_ascii (s : string) : bool :=
  all_chars (fun c => (N_of_ascii c <? 128)%N) s.

Definition entry_at (content pre name : string) : Prop :=
  exists ws q1 q2 post,
    content = pre ++ "dataset:" ++ ws ++ String q1 (name ++ String q2 post)
    /\ all_chars ReConfig.is_space ws = true
    /\ ReConfig.is_quote q1 = true
    /\ ReConfig.is_quote q2 = true
    /\ name <> EmptyString
    /\ all_chars not_quote name = true.

Definition first_entry (content name : string) : Prop :=
  exists pre,
    entry_at content pre name /\
    forall pre' name', entry_at content pre' name' ->
                       String.length pre <= String.length pre'.

Definition no_entry (content : string) : Prop :=
  forall pre name, ~ entry_at content pre name.

(** The longest run of characters satisfying [p] at the start of [s], and
    what follows it. *)
Fixpoint take_while (p : ascii -> bool) (s : string) : string :=
  match s with
  | String c s' => if p c then String c (take_while p s') else EmptyString
  | EmptyString => EmptyString
  end.

Fixpoint drop_while (p : ascii -> bool) (s : string) : string :=
  match s with
  | String c s' => if p c then drop_while p s' else s
  | EmptyString => EmptyString
  end.

(** The notions of numeric token over an alphabet with its digit class. *)

Section TokenOver.

Variable char : Type.
Variable of_ascii : ascii -> char.
Variable is_digit : char -> bool.

Definition digit_run (d : list char) : Prop :=
  d <> [] /\ forallb is_digit d = true.

Definition numeric_token_over (t : list char) : Prop :=
  digit_run t \/
  exists d e, digit_run d /\ digit_run e /\ t = (d ++ of_ascii "." :: e)%list.

Definition letter_B_over (c : char) : Prop :=
  c = of_ascii "b" \/ c = of_ascii "B".

(** [t] is a numeric token of [name] that starts right after [pre] and is
    immediately followed by the letter B. *)
Definition token_at_over (name pre t : list char) : Prop :=
  numeric_token_over t /\
  exists c post, letter_B_over c /\ name = (pre ++ t ++ c :: post)%list.

(** [t] is the first such token of [name]: none starts further left. *)
Definition first_token_over (name t : list char) : Prop :=
  exists pre,
    token_at_over name pre t /\
    forall pre' t', token_at_over name pre' t' ->
                    List.length pre <= List.length pre'.

(** No digit sequence of [name] is immediately followed by the letter B. *)
Definition no_digits_before_B_over (name : list char) : Prop :=
  forall pre d c post,
    name = (pre ++ d ++ c :: post)%list -> digit_run d -> ~ letter_B_over c.

(** The longest run of digits at the start of [s], and what follows it. *)
Fixpoint take_run (s : list char) : list char :=
  match s with
  | c :: s' => if is_digit c then c :: take_run s' else []
  | [] => []
  end.

Fixpoint drop_run (s : list char) : list char :=
  match s with
  | c :: s' => if is_digit c then drop_run s' else s
  | [] => []
  end.

(** A continuation of the matcher that fails on input starting with a
    digit. *)
Definition rejects_digit_over (k : ReChar.kont char) : Prop :=
  forall cap c r, is_digit c = true -> k cap (c :: r) = None.

End TokenOver.

(** A continuation of [Re] and one of [ReChar] at the ASCII alphabet that
    give the same answers. *)
Definition kont_agree (k : Re.kont) (kl : ReChar.kont ascii) : Prop :=
  forall cap s,
    option_map list_ascii_of_string (k cap s)
    = kl (list_ascii_of_string cap) (list_ascii_of_string s).

(** ** Facts about strings *)

Section StringFacts.

Lemma append_empty_r (s : string) : s ++ "" = s.
Proof. induction s as [|c s IH]; simpl; [reflexivity | now rewrite IH]. Qed.

Lemma append_assoc (a b c : string) : (a ++ b) ++ c = a ++ (b ++ c).
Proof. induction a as [|x a IH]; simpl; [reflexivity | now rewrite IH]. Qed.

Lemma append_length (a b : string) :
  String.length (a ++ b) = String.length a + String.length b.
Proof. induction a as [|x a IH]; simpl; [reflexivity | now rewrite IH]. Qed.

Lemma append_eq_empty (a b : string) : a ++ b = "" -> a = "" /\ b = "".
Proof. destruct a; simpl; [auto | discriminate]. Qed.

(** Two splittings of one string at the same position coincide. *)
Lemma append_same_length (a b a' b' : string) :
  a ++ b = a' ++ b' -> String.length a = String.length a' ->
  a = a' /\ b = b'.
Proof.
  revert a'; induction a as [|x a IH]; intros [|y a'] H L;
    simpl in *; try discriminate; auto.
  injection H as -> H. injection L as L.
  destruct (IH _ H L) as [-> ->]. auto.
Qed.

(** A splitting at a position inside the first part of another one. *)
Lemma append_shorter (a b a' b' : string) :
  a ++ b = a' ++ b' -> String.length a' <= String.length a ->
  exists m, a = a' ++ m /\ b' = m ++ b.
Proof.
  revert a; induction a' as [|y a' IH]; intros a H L; simpl in *.
  - exists a. auto.
  - destruct a as [|x a]; simpl in *; [lia|].
    injection H as -> H.
    destruct (IH a H ltac:(lia)) as [m [-> ->]].
    exists m. auto.
Qed.

Lemma contains_char_cons (sep c : ascii) (s : string) :
  PyStr.contains (String sep "") (String c s)
  = Ascii.eqb sep c || PyStr.contains (String sep "") s.
Proof.
  cbn [PyStr.contains prefix]. destruct (ascii_dec sep c) as [->|N].
  - rewrite Ascii.eqb_refl. now destruct s.
  - apply Ascii.eqb_neq in N. rewrite N. reflexivity.
Qed.

(** A character that occurs in [s] splits it at its first occurrence. *)
Lemma contains_char_split (sep : ascii) (s : string) :
  PyStr.contains (String sep "") s = true ->
  exists p rest,
    s = p ++ String sep rest /\ PyStr.contains (String sep "") p = false.
Proof.
  induction s as [|c s IH]; intro H.
  - discriminate.
  - rewrite contains_char_cons in H.
    destruct (Ascii.eqb sep c) eqn:E.
    + apply Ascii.eqb_eq in E as <-. now exists "", s.
    + destruct (IH H) as [p [rest [-> Hp]]].
      exists (String c p), rest. split; [reflexivity|].
      rewrite contains_char_cons, E. exact Hp.
Qed.

Lemma contains_char_append (sep : ascii) (p rest : string) :
  PyStr.contains (String sep "") (p ++ String sep rest) = true.
Proof.
  induction p as [|c p IH].
  - change ("" ++ String sep rest) with (String sep rest).
    now rewrite contains_char_cons, Ascii.eqb_refl.
  - change (String c p ++ String sep rest)
      with (String c (p ++ String sep rest)).
    rewrite contains_char_cons, IH. apply orb_true_r.
Qed.

Lemma split_nonempty (sep : ascii) (s : string) : PyStr.split sep s <> [].
Proof.
  destruct s as [|c s]; simpl; [discriminate|].
  destruct (Ascii.eqb c sep); [discriminate|].
  destruct (PyStr.split sep s); discriminate.
Qed.

(** [split] cuts at the first separator and goes on with the rest. *)
Lemma split_first (sep : ascii) (p rest : string) :
  PyStr.contains (String sep "") p = false ->
  PyStr.split sep (p ++ String sep rest) = p :: PyStr.split sep rest.
Proof.
  induction p as [|c p IH]; intro H.
  - simpl. now rewrite Ascii.eqb_refl.
  - rewrite contains_char_cons in H. apply orb_false_iff in H as [E H].
    simpl. rewrite Ascii.eqb_sym, E, (IH H). reflexivity.
Qed.

Lemma split_absent (sep : ascii) (s : string) :
  PyStr.contains (String sep "") s = false -> PyStr.split sep s = [s].
Proof.
  induction s as [|c s IH]; intro H; [reflexivity|].
  rewrite contains_char_cons in H. apply orb_false_iff in H as [E H].
  simpl. rewrite Ascii.eqb_sym, E, (IH H). reflexivity.
Qed.

(** Joining the pieces of a split gives the string back. *)
Lemma join_split (sep : ascii) (s : string) :
  PyStr.join (String sep "") (PyStr.split sep s) = s.
Proof.
  unfold PyStr.join. induction s as [|c s IH]; [reflexivity|].
  simpl PyStr.split. destruct (Ascii.eqb c sep) eqn:E.
  - apply Ascii.eqb_eq in E as ->.
    destruct (PyStr.split sep s) as [|h t] eqn:S.
    + now destruct (split_nonempty sep s).
    + change (concat (String sep "") ("" :: h :: t))
        with (String sep (concat (String sep "") (h :: t))).
      now rewrite IH.
  - destruct (PyStr.split sep s) as [|h t] eqn:S.
    + now destruct (split_nonempty sep s).
    + destruct t as [|h' t]; simpl in *; now rewrite IH.
Qed.

(** The first piece of a split is empty only for the empty string and
    for a string that starts with the separator. *)
Lemma hd_split_empty (sep : ascii) (s : string) :
  hd "" (PyStr.split sep s) = "" <->
  s = "" \/ PyStr.startswith (String sep "") s = true.
Proof.
  destruct s as [|c s].
  - simpl. tauto.
  - unfold PyStr.startswith. cbn [PyStr.split prefix].
    destruct (ascii_dec sep c) as [->|N].
    + rewrite Ascii.eqb_refl. simpl. destruct s; tauto.
    + apply Ascii.eqb_neq in N. rewrite Ascii.eqb_sym in N. rewrite N.
      destruct (PyStr.split sep s); simpl;
        (split; [discriminate | intros [?|?]; discriminate]).
Qed.

Lemma replace_char_empty (a b : ascii) (s : string) :
  PyStr.replace (String a "") (String b "") s = "" <-> s = "".
Proof.
  unfold PyStr.replace. destruct s as [|c s]; simpl; [tauto|].
  destruct (ascii_dec a c) as [_|_];
    (destruct s; simpl; split; discriminate).
Qed.

Lemma title_empty (s : string) : PyStr.title s = "" <-> s = "".
Proof. destruct s; simpl; split; (reflexivity || discriminate). Qed.

Lemma clean_org_empty (org : string) : clean_org org = "" <-> org = "".
Proof.
  unfold clean_org. rewrite title_empty. apply replace_char_empty.
Qed.

Lemma special_fixes_empty (org : string) :
  special_fixes org = "" <-> org = "".
Proof.
  split.
  - unfold special_fixes.
    destruct (PyStr.contains "Meta Llama" org || PyStr.contains "Llama" org);
      [vm_compute; discriminate|].
    destruct (PyStr.contains "01 Ai" org); [vm_compute; discriminate|].
    destruct (PyStr.contains "Qwen" org); [discriminate | auto].
  - intros ->. reflexivity.
Qed.

End StringFacts.

(** ** Identity resolution *)

Section Resolver.

Lemma guess_underscore (p rest : string) :
  PyStr.contains "_" p = false ->
  guess_org_name (p ++ "_" ++ rest) = (p, rest).
Proof.
  intro Hp. unfold guess_org_name.
  change (p ++ "_" ++ rest) with (p ++ String "_" rest).
  rewrite (contains_char_append "_" p rest), (split_first "_" p rest Hp).
  cbn [hd tl]. now rewrite (join_split "_" rest).
Qed.

(** Without an underscore, only the [meta-llama] branch changes the name. *)
Lemma guess_name_unchanged (model_id : string) :
  PyStr.contains "_" model_id = false ->
  PyStr.contains "meta-llama" (PyStr.lower model_id) = false ->
  snd (guess_org_name model_id) = model_id.
Proof.
  intros U M. unfold guess_org_name. rewrite U, M.
  repeat match goal with
         | |- context [if ?b then _ else _] => destruct b
         end; reflexivity.
Qed.

Lemma guess_no_keyword (model_id : string) :
  PyStr.contains "_" model_id = false ->
  known_keyword (PyStr.lower model_id) = false ->
  guess_org_name model_id = ("Others", model_id).
Proof.
  intros U K. unfold known_keyword in K.
  repeat (apply orb_false_iff in K as [K ?]).
  unfold guess_org_name.
  repeat match goal with
         | H : _ = false |- _ => rewrite H; clear H
         end.
  reflexivity.
Qed.

(** With a keyword the guessed organization is one of six constants,
    none of them a placeholder. *)
Lemma guess_keyword (model_id : string) :
  PyStr.contains "_" model_id = false ->
  known_keyword (PyStr.lower model_id) = true ->
  In (fst (guess_org_name model_id))
     ["Meta Llama"; "Qwen"; "Mistral"; "01-ai"; "Google"; "Microsoft"].
Proof.
  intros U K. unfold known_keyword in K. unfold guess_org_name.
  rewrite U.
  repeat match goal with
         | |- context [if ?b then _ else _] =>
             destruct b; [simpl; tauto|]
         end.
  discriminate.
Qed.

Lemma startswith_cons (c : ascii) (s : string) :
  PyStr.startswith (String c "") s = true <-> exists r, s = String c r.
Proof.
  unfold PyStr.startswith. destruct s as [|x s]; simpl.
  - split; [discriminate | intros [r H]; discriminate].
  - destruct (ascii_dec c x) as [->|N].
    + split; [now exists s | now destruct s].
    + split; [discriminate | intros [r H]; congruence].
Qed.

(** The organization is empty exactly when the text it is cut from is. *)
Lemma organization_empty_iff (model_id : string) :
  organization (resolve model_id) = "" <->
  resolve_placeholder model_id (fst (guess_org_name model_id)) = "".
Proof.
  unfold resolve, titled_org; cbn [organization].
  now rewrite special_fixes_empty, clean_org_empty.
Qed.

Lemma placeholder_underscore (p rest : string) :
  PyStr.contains "_" p = false ->
  resolve_placeholder (p ++ "_" ++ rest) p = "" <-> p = "".
Proof.
  intro Hp. unfold resolve_placeholder.
  destruct ((p =? "Unknown") || (p =? "Others")) eqn:G; [|tauto].
  assert (Hne : p <> "").
  { intros ->. discriminate. }
  destruct (PyStr.contains "-" (p ++ "_" ++ rest)); [|tauto].
  rewrite hd_split_empty. split; [|tauto].
  apply orb_true_iff in G as [G|G]; apply String.eqb_eq in G; subst p;
    (intros [H|H]; [discriminate H | vm_compute in H; discriminate H]).
Qed.

End Resolver.

(** ** Identity resolution over given case mappings *)

Section ResolverOver.

Variable lower : string -> string.

(** The definitions of the pipeline are the instance at the ASCII
    mappings. *)
Lemma resolve_ascii_instance (raw : string) :
  organization (resolve raw) = organization_with PyStr.lower PyStr.title raw
  /\ displayName (resolve raw) = display_name_with PyStr.lower raw
  /\ titled_org raw = titled_org_with PyStr.lower PyStr.title raw
  /\ family (resolve raw) = family_with PyStr.lower PyStr.title raw.
Proof. repeat split. Qed.

Lemma guess_underscore_with (p rest : string) :
  PyStr.contains "_" p = false ->
  guess_org_name_with lower (p ++ "_" ++ rest) = (p, rest).
Proof.
  intro Hp. unfold guess_org_name_with.
  change (p ++ "_" ++ rest) with (p ++ String "_" rest).
  rewrite (contains_char_append "_" p rest), (split_first "_" p rest Hp).
  cbn [hd tl]. now rewrite (join_split "_" rest).
Qed.

Lemma guess_no_keyword_with (model_id : string) :
  PyStr.contains "_" model_id = false ->
  known_keyword (lower model_id) = false ->
  guess_org_name_with lower model_id = ("Others", model_id).
Proof.
  intros U K. unfold known_keyword in K.
  repeat (apply orb_false_iff in K as [K ?]).
  unfold guess_org_name_with.
  repeat match goal with
         | H : _ = false |- _ => rewrite H; clear H
         end.
  reflexivity.
Qed.

Lemma guess_keyword_with (model_id : string) :
  PyStr.contains "_" model_id = false ->
  known_keyword (lower model_id) = true ->
  In (fst (guess_org_name_with lower model_id))
     ["Meta Llama"; "Qwen"; "Mistral"; "01-ai"; "Google"; "Microsoft"].
Proof.
  intros U K. unfold known_keyword in K. unfold guess_org_name_with.
  rewrite U.
  repeat match goal with
         | |- context [if ?b then _ else _] =>
             destruct b; [simpl; tauto|]
         end.
  discriminate.
Qed.

Variable title : string -> string.

(** With a title-casing that keeps a non-empty text non-empty, the
    organization is empty exactly when the text it is cut from is. *)
Lemma organization_with_empty_iff (model_id : string) :
  (forall s, title s = "" <-> s = "") ->
  organization_with lower title model_id = "" <->
  resolve_placeholder model_id (fst (guess_org_name_with lower model_id)) = "".
Proof.
  intro Ht. unfold organization_with, titled_org_with, clean_org_with.
  now rewrite special_fixes_empty, Ht, replace_char_empty.
Qed.

End ResolverOver.

(** C3. Resolving "fine-tuned-meta-llama-meta-llama-3-8b-instruct" gives
    the organization "Meta Llama", the family "Llama", the parameter size
    "8B" and the instruct flag set. *)
Theorem resolve_fine_tuned_llama :
  organization (resolve "fine-tuned-meta-llama-meta-llama-3-8b-instruct")
  = "Meta Llama"
  /\ family (resolve "fine-tuned-meta-llama-meta-llama-3-8b-instruct")
     = "Llama"
  /\ parameterSize (resolve "fine-tuned-meta-llama-meta-llama-3-8b-instruct")
     = "8B"
  /\ isInstructTuned (resolve "fine-tuned-meta-llama-meta-llama-3-8b-instruct")
     = true.
Proof. vm_compute. repeat split. Qed.

(** C10. A raw name without underscore that matches one of the keywords
    qwen, mistral, 01-ai, google or microsoft, and not meta-llama, keeps
    its display name: the raw name unchanged. *)
Theorem keyword_keeps_display_name (raw : string) :
  PyStr.contains "_" raw = false ->
  PyStr.contains "meta-llama" (PyStr.lower raw) = false ->
  PyStr.contains "qwen" (PyStr.lower raw) = true
  \/ PyStr.contains "mistral" (PyStr.lower raw) = true
  \/ PyStr.contains "01-ai" (PyStr.lower raw) = true
  \/ PyStr.contains "google" (PyStr.lower raw) = true
  \/ PyStr.contains "microsoft" (PyStr.lower raw) = true ->
  displayName (resolve raw) = raw.
Proof.
  intros U M _. unfold resolve; cbn [displayName].
  now apply guess_name_unchanged.
Qed.

Lemma keyword_keeps_display_name_witness :
  displayName (resolve "Qwen2.5-7B-Chat") = "Qwen2.5-7B-Chat".
Proof.
  apply (keyword_keeps_display_name "Qwen2.5-7B-Chat");
    [reflexivity | reflexivity | left; reflexivity].
Defined.

(** C7, as the claim states it, fails: the title-cased organization of
    "codellama_CodeLlama-7b-hf" is "Codellama", which contains "llama" when
    case is ignored, and it is left as it is. *)
Lemma llama_case_insensitive_counterexample :
  PyStr.contains "llama" (PyStr.lower (titled_org "codellama_CodeLlama-7b-hf"))
  = true
  /\ organization (resolve "codellama_CodeLlama-7b-hf") = "Codellama"
  /\ organization (resolve "codellama_CodeLlama-7b-hf") <> "Meta Llama".
Proof. vm_compute. repeat split. discriminate. Qed.

(** C7, amended. If the organization obtained after hyphen replacement and
    title-casing contains "Llama" with this exact capitalisation, the
    resolved organization is "Meta Llama"; this holds whatever [str.lower]
    and [str.title] do to the name. *)
Theorem llama_forces_meta_llama (lower title : string -> string)
        (raw : string) :
  PyStr.contains "Llama" (titled_org_with lower title raw) = true ->
  organization_with lower title raw = "Meta Llama".
Proof.
  intro H. unfold organization_with, special_fixes.
  rewrite H, orb_true_r. reflexivity.
Qed.

Lemma llama_forces_meta_llama_witness :
  organization_with PyStr.lower PyStr.title "llama-3-8b-instruct"
  = "Meta Llama".
Proof.
  apply (llama_forces_meta_llama PyStr.lower PyStr.title
           "llama-3-8b-instruct").
  reflexivity.
Defined.

(** C2, as the claim states it, fails: the organization of
    "meta-llama_Llama-3-8B" is "Meta Llama", not the text "meta-llama"
    before the first underscore. *)
Lemma underscore_organization_counterexample :
  "meta-llama_Llama-3-8B" = "meta-llama" ++ "_" ++ "Llama-3-8B"
  /\ PyStr.contains "_" "meta-llama" = false
  /\ organization (resolve "meta-llama_Llama-3-8B") = "Meta Llama"
  /\ organization (resolve "meta-llama_Llama-3-8B") <> "meta-llama".
Proof. vm_compute. repeat split. discriminate. Qed.

(** C2, amended. When [raw] is [p], an underscore and [rest], with no
    underscore in [p], the display name is [rest], and the organization is
    [p] after normalisation: the placeholder fallback (only for [p] equal
    to "Unknown" or "Others"), hyphens replaced by spaces, title-casing and
    the special fixes; this holds whatever [str.lower] and [str.title] do
    to the name. *)
Theorem underscore_split (lower title : string -> string)
        (raw p rest : string) :
  raw = p ++ "_" ++ rest ->
  PyStr.contains "_" p = false ->
  display_name_with lower raw = rest
  /\ organization_with lower title raw = canonical_org_with title raw p.
Proof.
  intros -> Hp.
  unfold display_name_with, organization_with, titled_org_with,
    canonical_org_with.
  now rewrite (guess_underscore_with lower p rest Hp).
Qed.

Lemma underscore_split_witness :
  display_name_with PyStr.lower "meta-llama_Llama-3-8B" = "Llama-3-8B"
  /\ organization_with PyStr.lower PyStr.title "meta-llama_Llama-3-8B"
     = canonical_org_with PyStr.title "meta-llama_Llama-3-8B" "meta-llama".
Proof.
  apply (underscore_split PyStr.lower PyStr.title
           "meta-llama_Llama-3-8B" "meta-llama" "Llama-3-8B");
    reflexivity.
Defined.

(** C4, as the claim states it, fails: the raw name "_x" resolves to the
    empty organization. *)
Lemma organization_empty_counterexample :
  organization (resolve "_x") = "".
Proof. reflexivity. Qed.

(** C4, amended. The organization is empty exactly when the raw name
    starts with an underscore, or starts with a hyphen while it contains no
    underscore and none of the organization keywords; for every other raw
    name it is a non-empty string.  This holds whatever [str.lower] does
    to the name, and for every title-casing that keeps a non-empty text
    non-empty, as [str.title] does. *)
Theorem organization_empty_exactly (lower title : string -> string)
        (raw : string) :
  (forall s, title s = "" <-> s = "") ->
  organization_with lower title raw = "" <->
  PyStr.startswith "_" raw = true
  \/ (PyStr.startswith "-" raw = true
      /\ PyStr.contains "_" raw = false
      /\ known_keyword (lower raw) = false).
Proof.
  intro Ht. rewrite (organization_with_empty_iff lower title raw Ht).
  destruct (PyStr.contains "_" raw) eqn:U.
  - destruct (contains_char_split "_" raw U) as [p [rest [-> Hp]]].
    change (p ++ String "_" rest) with (p ++ "_" ++ rest).
    rewrite (guess_underscore_with lower p rest Hp). cbn [fst].
    rewrite (placeholder_underscore p rest Hp). split.
    + intros ->. left. apply startswith_cons. now exists rest.
    + intros [H|[_ [H _]]]; [|discriminate].
      apply startswith_cons in H as [r H].
      destruct p as [|c p]; [reflexivity|].
      injection H as -> _. rewrite contains_char_cons in Hp.
      rewrite Ascii.eqb_refl in Hp. discriminate.
  - assert (NU : PyStr.startswith "_" raw = true -> False).
    { intro H. apply startswith_cons in H as [r ->].
      rewrite contains_char_cons, Ascii.eqb_refl in U. discriminate. }
    destruct (known_keyword (lower raw)) eqn:K.
    + pose proof (guess_keyword_with lower raw U K) as G.
      split; [|intros [H|[_ [_ H]]]; [tauto | discriminate]].
      unfold resolve_placeholder. simpl in G.
      repeat (destruct G as [<-|G]; [vm_compute; discriminate|]).
      contradiction.
    + rewrite (guess_no_keyword_with lower raw U K). cbn [fst].
      unfold resolve_placeholder.
      change (("Others" =? "Unknown") || ("Others" =? "Others")) with true.
      cbv iota.
      destruct (PyStr.contains "-" raw) eqn:H.
      * rewrite hd_split_empty. split.
        -- intros [->|S]; [discriminate H | tauto].
        -- intros [S|[S _]]; tauto.
      * split; [discriminate|].
        intros [S|[S _]]; [tauto|].
        apply startswith_cons in S as [r ->].
        rewrite contains_char_cons, Ascii.eqb_refl in H. discriminate.
Qed.

Lemma organization_empty_exactly_witness :
  organization_with PyStr.lower PyStr.title "-x" = "" <->
  PyStr.startswith "_" "-x" = true
  \/ (PyStr.startswith "-" "-x" = true
      /\ PyStr.contains "_" "-x" = false
      /\ known_keyword (PyStr.lower "-x") = false).
Proof.
  apply (organization_empty_exactly PyStr.lower PyStr.title "-x").
  intro s. destruct s; simpl; split; (reflexivity || discriminate).
Defined.

(** ** The parameter-size pattern *)

Section ParameterPattern.

Lemma is_B_letter (c : ascii) : Re.is_B c = true <-> letter_B c.
Proof.
  unfold letter_B.
  destruct c as [[] [] [] [] [] [] [] []]; vm_compute;
    (split;
     [ intro H; first [discriminate H | left; reflexivity | right; reflexivity]
     | intros [H|H]; first [discriminate H | reflexivity] ]).
Qed.

Lemma digit_not_B (c : ascii) : PyStr.is_digit c = true -> Re.is_B c = false.
Proof.
  destruct c as [[] [] [] [] [] [] [] []]; vm_compute; intro H;
    first [reflexivity | discriminate H].
Qed.

Lemma digit_not_dot (c : ascii) :
  PyStr.is_digit c = true -> Ascii.eqb c "."%char = false.
Proof.
  destruct c as [[] [] [] [] [] [] [] []]; vm_compute; intro H;
    first [reflexivity | discriminate H].
Qed.

Lemma B_not_digit (c : ascii) : letter_B c -> PyStr.is_digit c = false.
Proof. intros [->| ->]; reflexivity. Qed.

Lemma B_not_dot (c : ascii) : letter_B c -> Ascii.eqb c "."%char = false.
Proof. intros [->| ->]; reflexivity. Qed.

(** *** Runs of digits *)

Lemma take_drop_digits (s : string) : take_digits s ++ drop_digits s = s.
Proof.
  induction s as [|c s IH]; simpl; [reflexivity|].
  destruct (PyStr.is_digit c); simpl; [now rewrite IH | reflexivity].
Qed.

Lemma take_digits_only (s : string) : digits_only (take_digits s) = true.
Proof.
  induction s as [|c s IH]; simpl; [reflexivity|].
  destruct (PyStr.is_digit c) eqn:D; simpl; [now rewrite D | reflexivity].
Qed.

Lemma drop_digits_head (s : string) (c : ascii) (r : string) :
  drop_digits s = String c r -> PyStr.is_digit c = false.
Proof.
  induction s as [|a s IH]; simpl; [discriminate|].
  destruct (PyStr.is_digit a) eqn:D; [exact IH|].
  intro H. injection H as <- _. exact D.
Qed.

(** A run of digits followed by a non-digit is the longest one. *)
Lemma take_digits_run (d : string) (c : ascii) (r : string) :
  digits_only d = true -> PyStr.is_digit c = false ->
  take_digits (d ++ String c r) = d
  /\ drop_digits (d ++ String c r) = String c r.
Proof.
  intros Hd Hc. induction d as [|a d IH]; simpl in *.
  - now rewrite Hc.
  - apply andb_true_iff in Hd as [Ha Hd]. rewrite Ha.
    destruct (IH Hd) as [-> ->]. auto.
Qed.

(** *** The matcher *)

Lemma literal_B_rejects_digit : rejects_digit Re.literal_B.
Proof.
  intros cap c r D. unfold Re.literal_B. now rewrite (digit_not_B c D).
Qed.

Lemma opt_fraction_rejects_digit : rejects_digit (Re.opt_fraction Re.literal_B).
Proof.
  intros cap c r D. unfold Re.opt_fraction.
  rewrite (digit_not_dot c D). now apply literal_B_rejects_digit.
Qed.

(** Giving digits back never helps: the greedy run is the only split the
    continuation can accept. *)
Lemma digits_star_greedy (k : Re.kont) :
  rejects_digit k ->
  forall s cap,
    Re.digits_star s cap k = k (cap ++ take_digits s) (drop_digits s).
Proof.
  intros Hk. induction s as [|c s IH]; intro cap; simpl.
  - now rewrite append_empty_r.
  - destruct (PyStr.is_digit c) eqn:D.
    + rewrite IH, append_assoc. simpl.
      destruct (k (cap ++ String c (take_digits s)) (drop_digits s));
        [reflexivity | now apply Hk].
    + now rewrite append_empty_r.
Qed.

Lemma digits_plus_greedy (k : Re.kont) :
  rejects_digit k ->
  forall s cap,
    Re.digits_plus s cap k =
    match take_digits s with
    | EmptyString => None
    | String _ _ => k (cap ++ take_digits s) (drop_digits s)
    end.
Proof.
  intros Hk [|c s] cap; simpl; [reflexivity|].
  destruct (PyStr.is_digit c); [|reflexivity].
  rewrite (digits_star_greedy k Hk), append_assoc. reflexivity.
Qed.

Lemma all_digits_take (s : string) (c : ascii) (r : string) :
  take_digits s = String c r -> all_digits (take_digits s).
Proof.
  intro H. split; [rewrite H; discriminate | apply take_digits_only].
Qed.

(** A match at the start of [s] is a numeric token followed by B. *)
Lemma match_here_token (s t : string) :
  Re.match_here s = Some t -> token_at s "" t.
Proof.
  unfold Re.match_here.
  rewrite (digits_plus_greedy _ opt_fraction_rejects_digit).
  destruct (take_digits s) as [|c0 d0] eqn:Td; [discriminate|].
  rewrite <- Td. pose proof (all_digits_take s c0 d0 Td) as Hd.
  pose proof (take_drop_digits s) as Hs.
  set (d := take_digits s) in *. clearbody d. clear Td.
  change ("" ++ d) with d.
  unfold Re.opt_fraction.
  destruct (drop_digits s) as [|c r] eqn:Dr; [discriminate|].
  destruct (Ascii.eqb c "."%char) eqn:Dot.
  - apply Ascii.eqb_eq in Dot as ->.
    rewrite (digits_plus_greedy _ literal_B_rejects_digit).
    destruct (take_digits r) as [|c1 e1] eqn:Te.
    + discriminate.
    + rewrite <- Te. pose proof (all_digits_take r c1 e1 Te) as He.
      pose proof (take_drop_digits r) as Hr.
      set (e := take_digits r) in *. clearbody e. clear Te.
      unfold Re.literal_B at 1.
      destruct (drop_digits r) as [|b post] eqn:Dr'; [discriminate|].
      destruct (Re.is_B b) eqn:B; [|discriminate].
      intro H. injection H as <-. split.
      * right. exists d, e. rewrite append_assoc. auto.
      * exists b, post. split; [now apply is_B_letter|].
        rewrite <- Hs, <- Hr. simpl. now rewrite !append_assoc.
  - unfold Re.literal_B. destruct (Re.is_B c) eqn:B; [|discriminate].
    intro H. injection H as <-. split.
    + now left.
    + exists c, r. split; [now apply is_B_letter | now rewrite <- Hs].
Qed.

(** A numeric token followed by B at the start of [s] is matched. *)
Lemma token_match_here (s t : string) :
  token_at s "" t -> Re.match_here s = Some t.
Proof.
  intros [Ht [c [post [B ->]]]]. simpl.
  unfold Re.match_here.
  rewrite (digits_plus_greedy _ opt_fraction_rejects_digit).
  destruct Ht as [[Hne Hd] | [d [e [[Hne Hd] [[Hne' He] ->]]]]].
  - destruct (take_digits_run t c post Hd (B_not_digit c B)) as [-> ->].
    destruct t as [|a t]; [contradiction|].
    unfold Re.opt_fraction. rewrite (B_not_dot c B). simpl.
    apply is_B_letter in B. now rewrite B.
  - rewrite append_assoc. simpl.
    destruct (take_digits_run d "." (e ++ String c post) Hd eq_refl)
      as [-> ->].
    destruct d as [|a d]; [contradiction|].
    unfold Re.opt_fraction. simpl Ascii.eqb. cbv iota.
    rewrite (digits_plus_greedy _ literal_B_rejects_digit).
    destruct (take_digits_run e c post He (B_not_digit c B)) as [-> ->].
    destruct e as [|b e]; [contradiction|].
    unfold Re.literal_B. apply is_B_letter in B. rewrite B.
    simpl. now rewrite !append_assoc.
Qed.

Lemma token_at_suffix (name pre t : string) :
  token_at name pre t <->
  exists suf, name = pre ++ suf /\ Re.match_here suf = Some t.
Proof.
  split.
  - intros [Ht [c [post [B ->]]]]. exists (t ++ String c post).
    split; [reflexivity|]. apply token_match_here.
    split; [exact Ht | now exists c, post].
  - intros [suf [-> H]]. apply match_here_token in H as [Ht [c [post [B ->]]]].
    split; [exact Ht | now exists c, post].
Qed.

(** *** The search *)

Lemma search_none (s : string) :
  Re.search s = None ->
  forall pre suf, s = pre ++ suf -> Re.match_here suf = None.
Proof.
  induction s as [|c s IH]; cbn [Re.search].
  - intros _ pre suf H. symmetry in H.
    apply append_eq_empty in H as [_ ->]. reflexivity.
  - destruct (Re.match_here (String c s)) eqn:M; [discriminate|].
    intros H [|a pre] suf E; simpl in E.
    + now subst suf.
    + injection E as _ E. now apply (IH H pre).
Qed.

Lemma search_some (s t : string) :
  Re.search s = Some t ->
  exists pre suf,
    s = pre ++ suf /\ Re.match_here suf = Some t /\
    forall pre' suf', s = pre' ++ suf' ->
                      String.length pre' < String.length pre ->
                      Re.match_here suf' = None.
Proof.
  induction s as [|c s IH]; cbn [Re.search].
  - discriminate.
  - destruct (Re.match_here (String c s)) eqn:M.
    + intro H. injection H as ->. exists "", (String c s).
      repeat split; auto. simpl. intros; lia.
    + intro H. destruct (IH H) as [pre [suf [-> [Hm Hmin]]]].
      exists (String c pre), suf. repeat split; auto.
      intros [|a pre'] suf' E L; simpl in *.
      * now subst suf'.
      * injection E as _ E. apply (Hmin pre' suf' E). lia.
Qed.

Lemma search_first_token (name t : string) :
  Re.search name = Some t <-> first_token name t.
Proof.
  split.
  - intro H. destruct (search_some name t H) as [pre [suf [-> [Hm Hmin]]]].
    exists pre. split.
    + apply token_at_suffix. now exists suf.
    + intros pre' t' Ht'. apply token_at_suffix in Ht' as [suf' [E Hm']].
      destruct (Nat.le_gt_cases (String.length pre) (String.length pre'))
        as [L|L]; [exact L|].
      rewrite (Hmin pre' suf' E L) in Hm'. discriminate.
  - intros [pre [Ht Hmin]].
    pose proof Ht as Ht0. apply token_at_suffix in Ht0 as [suf [E Hm]].
    destruct (Re.search name) as [t0|] eqn:S.
    + destruct (search_some name t0 S) as [pre0 [suf0 [E0 [Hm0 Hmin0]]]].
      assert (L : String.length pre <= String.length pre0).
      { apply (Hmin pre0 t0). apply token_at_suffix. now exists suf0. }
      destruct (Nat.eq_dec (String.length pre) (String.length pre0)) as [Q|Q].
      * rewrite E in E0. destruct (append_same_length _ _ _ _ E0 Q) as [_ <-].
        congruence.
      * rewrite (Hmin0 pre suf E) in Hm; [discriminate | lia].
    + rewrite (search_none name S pre suf E) in Hm. discriminate.
Qed.

Lemma search_no_digits (name : string) :
  Re.search name = None <-> no_digits_before_B name.
Proof.
  split.
  - intros S pre d c post E Hd B.
    assert (T : token_at name pre d).
    { split; [now left | now exists c, post]. }
    apply token_at_suffix in T as [suf [E' Hm]].
    rewrite (search_none name S pre suf E') in Hm. discriminate.
  - intro N. destruct (Re.search name) as [t|] eqn:S; [|reflexivity].
    apply search_first_token in S as [pre [[Ht [c [post [B E]]]] _]].
    destruct Ht as [Hd | [d [e [Hd [He ->]]]]].
    + now destruct (N pre t c post E Hd).
    + destruct (N (pre ++ d ++ ".") e c post); auto.
      rewrite E. now rewrite !append_assoc.
Qed.

End ParameterPattern.

(** ** The parameter-size pattern over any alphabet *)

Section PatternOver.

Variable char : Type.
Variable char_eqb : char -> char -> bool.
Variable of_ascii : ascii -> char.
Variable is_digit : char -> bool.

(** What is asked of the alphabet: [char_eqb] decides equality, the
    characters of the script are distinct, and on them [\d] is the class
    of the digits 0 to 9. *)
Hypothesis char_eqb_eq : forall a b, char_eqb a b = true <-> a = b.
Hypothesis of_ascii_inj : forall a b, of_ascii a = of_ascii b -> a = b.
Hypothesis digit_ascii :
  forall a, is_digit (of_ascii a) = PyStr.is_digit a.

Abbreviation is_B := (ReChar.is_B char char_eqb of_ascii).
Abbreviation is_dot := (ReChar.is_dot char char_eqb of_ascii).
Abbreviation literal_B := (ReChar.literal_B char char_eqb of_ascii).
Abbreviation opt_fraction := (ReChar.opt_fraction char char_eqb of_ascii is_digit).
Abbreviation digits_star := (ReChar.digits_star char is_digit).
Abbreviation digits_plus := (ReChar.digits_plus char is_digit).
Abbreviation match_here := (ReChar.match_here char char_eqb of_ascii is_digit).
Abbreviation search := (ReChar.search char char_eqb of_ascii is_digit).
Abbreviation run := (digit_run char is_digit).
Abbreviation take := (take_run char is_digit).
Abbreviation drop := (drop_run char is_digit).
Abbreviation letter := (letter_B_over char of_ascii).
Abbreviation token_at := (token_at_over char of_ascii is_digit).
Abbreviation first_token := (first_token_over char of_ascii is_digit).

Lemma char_eqb_neq (a b : ascii) :
  a <> b -> char_eqb (of_ascii a) (of_ascii b) = false.
Proof.
  intro N. destruct (char_eqb (of_ascii a) (of_ascii b)) eqn:E; [|reflexivity].
  apply char_eqb_eq, of_ascii_inj in E. contradiction.
Qed.

Lemma is_B_letter_over (c : char) : is_B c = true <-> letter c.
Proof.
  unfold ReChar.is_B, letter_B_over.
  rewrite orb_true_iff, !char_eqb_eq. tauto.
Qed.

Lemma B_not_digit_over (c : char) : letter c -> is_digit c = false.
Proof. intros [->| ->]; now rewrite digit_ascii. Qed.

Lemma B_not_dot_over (c : char) : letter c -> is_dot c = false.
Proof.
  unfold ReChar.is_dot. intros [->| ->]; apply char_eqb_neq; discriminate.
Qed.

Lemma digit_not_B_over (c : char) : is_digit c = true -> is_B c = false.
Proof.
  intro D. destruct (is_B c) eqn:B; [|reflexivity].
  apply is_B_letter_over, B_not_digit_over in B. congruence.
Qed.

Lemma digit_not_dot_over (c : char) : is_digit c = true -> is_dot c = false.
Proof.
  intro D. destruct (is_dot c) eqn:E; [|reflexivity].
  apply char_eqb_eq in E. subst c. rewrite digit_ascii in D. discriminate.
Qed.

Lemma dot_is_dot : is_dot (of_ascii ".") = true.
Proof. now apply char_eqb_eq. Qed.

(** *** Splittings of a list *)

Lemma app_same_length {A : Type} (a b a' b' : list A) :
  (a ++ b = a' ++ b')%list -> List.length a = List.length a' ->
  a = a' /\ b = b'.
Proof.
  revert a'; induction a as [|x a IH]; intros [|y a'] H L;
    simpl in *; try discriminate; auto.
  injection H as -> H. injection L as L.
  destruct (IH _ H L) as [-> ->]. auto.
Qed.

(** *** Runs of digits *)

Lemma take_drop_run (s : list char) : (take s ++ drop s)%list = s.
Proof.
  induction s as [|c s IH]; simpl; [reflexivity|].
  destruct (is_digit c); simpl; [now rewrite IH | reflexivity].
Qed.

Lemma take_run_only (s : list char) : forallb is_digit (take s) = true.
Proof.
  induction s as [|c s IH]; simpl; [reflexivity|].
  destruct (is_digit c) eqn:D; simpl; [now rewrite D | reflexivity].
Qed.

Lemma take_run_app (d : list char) (c : char) (r : list char) :
  forallb is_digit d = true -> is_digit c = false ->
  take (d ++ c :: r)%list = d /\ drop (d ++ c :: r)%list = c :: r.
Proof.
  intros Hd Hc. induction d as [|a d IH]; simpl in *.
  - now rewrite Hc.
  - apply andb_true_iff in Hd as [Ha Hd]. rewrite Ha.
    destruct (IH Hd) as [-> ->]. auto.
Qed.

Lemma run_take (s : list char) (c : char) (r : list char) :
  take s = c :: r -> run (take s).
Proof.
  intro H. split; [rewrite H; discriminate | apply take_run_only].
Qed.

(** *** The matcher *)

Lemma literal_B_rejects_digit_over :
  rejects_digit_over char is_digit literal_B.
Proof.
  intros cap c r D. unfold ReChar.literal_B.
  now rewrite (digit_not_B_over c D).
Qed.

Lemma opt_fraction_rejects_digit_over :
  rejects_digit_over char is_digit (opt_fraction literal_B).
Proof.
  intros cap c r D. unfold ReChar.opt_fraction.
  rewrite (digit_not_dot_over c D). now apply literal_B_rejects_digit_over.
Qed.

(** Giving digits back never helps: the greedy run is the only split the
    continuation can accept. *)
Lemma digits_star_greedy_over (k : ReChar.kont char) :
  rejects_digit_over char is_digit k ->
  forall s cap, digits_star s cap k = k (cap ++ take s)%list (drop s).
Proof.
  intros Hk. induction s as [|c s IH]; intro cap; simpl.
  - now rewrite app_nil_r.
  - destruct (is_digit c) eqn:D.
    + rewrite IH, <- app_assoc. simpl.
      destruct (k (cap ++ c :: take s)%list (drop s));
        [reflexivity | now apply Hk].
    + now rewrite app_nil_r.
Qed.

Lemma digits_plus_greedy_over (k : ReChar.kont char) :
  rejects_digit_over char is_digit k ->
  forall s cap,
    digits_plus s cap k =
    match take s with
    | [] => None
    | _ :: _ => k (cap ++ take s)%list (drop s)
    end.
Proof.
  intros Hk [|c s] cap; simpl; [reflexivity|].
  destruct (is_digit c); [|reflexivity].
  rewrite (digits_star_greedy_over k Hk), <- app_assoc. reflexivity.
Qed.

(** A match at the start of [s] is a numeric token followed by B. *)
Lemma match_here_token_over (s t : list char) :
  match_here s = Some t -> token_at s [] t.
Proof.
  unfold ReChar.match_here.
  rewrite (digits_plus_greedy_over _ opt_fraction_rejects_digit_over).
  destruct (take s) as [|c0 d0] eqn:Td; [discriminate|].
  rewrite <- Td. pose proof (run_take s c0 d0 Td) as Hd.
  pose proof (take_drop_run s) as Hs.
  set (d := take s) in *. clearbody d. clear Td.
  change ([] ++ d)%list with d.
  unfold ReChar.opt_fraction.
  destruct (drop s) as [|c r] eqn:Dr; [discriminate|].
  destruct (is_dot c) eqn:Dot.
  - apply char_eqb_eq in Dot. subst c.
    assert (B0 : is_B (of_ascii ".") = false).
    { destruct (is_B (of_ascii ".")) eqn:B; [|reflexivity].
      apply is_B_letter_over, B_not_dot_over in B.
      rewrite dot_is_dot in B. discriminate. }
    rewrite (digits_plus_greedy_over _ literal_B_rejects_digit_over).
    unfold ReChar.literal_B. rewrite B0.
    destruct (take r) as [|c1 e1] eqn:Te; [discriminate|].
    + rewrite <- Te. pose proof (run_take r c1 e1 Te) as He.
      pose proof (take_drop_run r) as Hr.
      set (e := take r) in *. clearbody e. clear Te.
      destruct (drop r) as [|b post] eqn:Dr'; [discriminate|].
      destruct (is_B b) eqn:B; [|discriminate].
      intro H. injection H as <-. split.
      * right. exists d, e. rewrite <- app_assoc. auto.
      * exists b, post. split; [now apply is_B_letter_over|].
        rewrite <- Hs, <- Hr. simpl. now rewrite <- !app_assoc.
  - unfold ReChar.literal_B. destruct (is_B c) eqn:B; [|discriminate].
    intro H. injection H as <-. split.
    + now left.
    + exists c, r. split; [now apply is_B_letter_over | now rewrite <- Hs].
Qed.

(** A numeric token followed by B at the start of [s] is matched. *)
Lemma token_match_here_over (s t : list char) :
  token_at s [] t -> match_here s = Some t.
Proof.
  intros [Ht [c [post [B ->]]]]. simpl.
  unfold ReChar.match_here.
  rewrite (digits_plus_greedy_over _ opt_fraction_rejects_digit_over).
  destruct Ht as [[Hne Hd] | [d [e [[Hne Hd] [[Hne' He] ->]]]]].
  - destruct (take_run_app t c post Hd (B_not_digit_over c B)) as [-> ->].
    destruct t as [|a t]; [contradiction|].
    unfold ReChar.opt_fraction. rewrite (B_not_dot_over c B). simpl.
    apply is_B_letter_over in B. unfold ReChar.literal_B. now rewrite B.
  - rewrite <- app_assoc. simpl.
    assert (Dd : is_digit (of_ascii ".") = false)
      by now rewrite digit_ascii.
    destruct (take_run_app d (of_ascii ".") (e ++ c :: post)%list Hd Dd)
      as [-> ->].
    destruct d as [|a d]; [contradiction|].
    unfold ReChar.opt_fraction. rewrite dot_is_dot.
    rewrite (digits_plus_greedy_over _ literal_B_rejects_digit_over).
    destruct (take_run_app e c post He (B_not_digit_over c B)) as [-> ->].
    destruct e as [|b e]; [contradiction|].
    unfold ReChar.literal_B. apply is_B_letter_over in B. rewrite B.
    simpl. now rewrite <- !app_assoc.
Qed.

Lemma token_at_suffix_over (name pre t : list char) :
  token_at name pre t <->
  exists suf, name = (pre ++ suf)%list /\ match_here suf = Some t.
Proof.
  split.
  - intros [Ht [c [post [B ->]]]]. exists (t ++ c :: post)%list.
    split; [reflexivity|]. apply token_match_here_over.
    split; [exact Ht | now exists c, post].
  - intros [suf [-> H]].
    apply match_here_token_over in H as [Ht [c [post [B ->]]]].
    split; [exact Ht | now exists c, post].
Qed.

(** *** The search *)

Lemma search_none_over (s : list char) :
  search s = None ->
  forall pre suf, s = (pre ++ suf)%list -> match_here suf = None.
Proof.
  induction s as [|c s IH]; cbn [ReChar.search].
  - intros _ pre suf H. symmetry in H.
    apply app_eq_nil in H as [_ ->]. reflexivity.
  - destruct (match_here (c :: s)) eqn:M; [discriminate|].
    intros H [|a pre] suf E; simpl in E.
    + now subst suf.
    + injection E as _ E. now apply (IH H pre).
Qed.

Lemma search_some_over (s t : list char) :
  search s = Some t ->
  exists pre suf,
    s = (pre ++ suf)%list /\ match_here suf = Some t /\
    forall pre' suf', s = (pre' ++ suf')%list ->
                      List.length pre' < List.length pre ->
                      match_here suf' = None.
Proof.
  induction s as [|c s IH]; cbn [ReChar.search].
  - discriminate.
  - destruct (match_here (c :: s)) eqn:M.
    + intro H. injection H as ->. exists [], (c :: s).
      repeat split; auto. simpl. intros; lia.
    + intro H. destruct (IH H) as [pre [suf [-> [Hm Hmin]]]].
      exists (c :: pre), suf. repeat split; auto.
      intros [|a pre'] suf' E L; simpl in *.
      * now subst suf'.
      * injection E as _ E. apply (Hmin pre' suf' E). lia.
Qed.

Lemma search_first_token_over (name t : list char) :
  search name = Some t <-> first_token name t.
Proof.
  split.
  - intro H.
    destruct (search_some_over name t H) as [pre [suf [-> [Hm Hmin]]]].
    exists pre. split.
    + apply token_at_suffix_over. now exists suf.
    + intros pre' t' Ht'. apply token_at_suffix_over in Ht' as [suf' [E Hm']].
      destruct (Nat.le_gt_cases (List.length pre) (List.length pre'))
        as [L|L]; [exact L|].
      rewrite (Hmin pre' suf' E L) in Hm'. discriminate.
  - intros [pre [Ht Hmin]].
    pose proof Ht as Ht0. apply token_at_suffix_over in Ht0 as [suf [E Hm]].
    destruct (search name) as [t0|] eqn:S.
    + destruct (search_some_over name t0 S) as [pre0 [suf0 [E0 [Hm0 Hmin0]]]].
      assert (L : List.length pre <= List.length pre0).
      { apply (Hmin pre0 t0). apply token_at_suffix_over. now exists suf0. }
      destruct (Nat.eq_dec (List.length pre) (List.length pre0)) as [Q|Q].
      * rewrite E in E0. destruct (app_same_length _ _ _ _ E0 Q) as [_ <-].
        congruence.
      * rewrite (Hmin0 pre suf E) in Hm; [discriminate | lia].
    + rewrite (search_none_over name S pre suf E) in Hm. discriminate.
Qed.

Lemma search_no_digits_over (name : list char) :
  search name = None <-> no_digits_before_B_over char of_ascii is_digit name.
Proof.
  split.
  - intros S pre d c post E Hd B.
    assert (T : token_at name pre d).
    { split; [now left | now exists c, post]. }
    apply token_at_suffix_over in T as [suf [E' Hm]].
    rewrite (search_none_over name S pre suf E') in Hm. discriminate.
  - intro N. destruct (search name) as [t|] eqn:S; [|reflexivity].
    apply search_first_token_over in S as [pre [[Ht [c [post [B E]]]] _]].
    destruct Ht as [Hd | [d [e [Hd [He ->]]]]].
    + now destruct (N pre t c post E Hd).
    + destruct (N (pre ++ d ++ [of_ascii "."])%list e c post); auto.
      rewrite E. rewrite <- !app_assoc. reflexivity.
Qed.

(** C8. Parameter extraction returns the first numeric token (digits,
    optionally a dot and digits) that is immediately followed by the
    letter B in either case, with "B" appended, and "Unknown" exactly when
    no digit sequence of the name is immediately followed by B; so a bare
    number is never captured.  This holds over every alphabet and digit
    class that contain the characters of the script with the digits 0 to
    9 among them, as the characters of Python and its [\d] do. *)
Theorem extract_params_first_token (name result : list char) :
  ReChar.extract_params_over char char_eqb of_ascii is_digit name = result <->
  (exists t, first_token name t
             /\ result = (t ++ ReChar.text char of_ascii "B")%list)
  \/ (no_digits_before_B_over char of_ascii is_digit name
      /\ result = ReChar.text char of_ascii "Unknown").
Proof.
  unfold ReChar.extract_params_over. split.
  - intros <-. destruct (search name) as [t|] eqn:S.
    + left. exists t. split; [now apply search_first_token_over | reflexivity].
    + right. split; [now apply search_no_digits_over | reflexivity].
  - intros [[t [Ht ->]] | [N ->]].
    + apply search_first_token_over in Ht. now rewrite Ht.
    + apply search_no_digits_over in N. now rewrite N.
Qed.

End PatternOver.

Lemma extract_params_first_token_witness :
  ReChar.extract_params_over ascii Ascii.eqb (fun a => a) PyStr.is_digit
    (list_ascii_of_string "llama-3-8b")
  = list_ascii_of_string "8B" <->
  (exists t,
      first_token_over ascii (fun a => a) PyStr.is_digit
        (list_ascii_of_string "llama-3-8b") t
      /\ list_ascii_of_string "8B"
         = (t ++ ReChar.text ascii (fun a => a) "B")%list)
  \/ (no_digits_before_B_over ascii (fun a => a) PyStr.is_digit
        (list_ascii_of_string "llama-3-8b")
      /\ list_ascii_of_string "8B"
         = ReChar.text ascii (fun a => a) "Unknown").
Proof.
  apply (extract_params_first_token ascii Ascii.eqb (fun a => a)
           PyStr.is_digit).
  - intros a b. apply Ascii.eqb_eq.
  - intros a b H. exact H.
  - intro a. reflexivity.
Defined.

(** ** [extract_params] is the matcher at the ASCII alphabet *)

Section PatternInstance.

Lemma list_of_append (a b : string) :
  list_ascii_of_string (a ++ b)
  = (list_ascii_of_string a ++ list_ascii_of_string b)%list.
Proof. induction a as [|c a IH]; simpl; [reflexivity | now rewrite IH]. Qed.

Lemma is_B_instance (c : ascii) :
  Re.is_B c = ReChar.is_B ascii Ascii.eqb (fun a => a) c.
Proof. destruct c as [[] [] [] [] [] [] [] []]; reflexivity. Qed.

Lemma digits_star_instance (k : Re.kont) (kl : ReChar.kont ascii) :
  kont_agree k kl ->
  forall s cap,
    option_map list_ascii_of_string (Re.digits_star s cap k)
    = ReChar.digits_star ascii PyStr.is_digit
        (list_ascii_of_string s) (list_ascii_of_string cap) kl.
Proof.
  intro H. induction s as [|c s IH]; intro cap; simpl; [apply H|].
  destruct (PyStr.is_digit c); [|apply (H cap (String c s))].
  change (list_ascii_of_string cap ++ [c])%list
    with (list_ascii_of_string cap ++ list_ascii_of_string (String c ""))%list.
  rewrite <- list_of_append, <- (IH (cap ++ String c "")).
  destruct (Re.digits_star s (cap ++ String c "") k); simpl;
    [reflexivity | apply (H cap (String c s))].
Qed.

Lemma digits_plus_instance (k : Re.kont) (kl : ReChar.kont ascii) :
  kont_agree k kl ->
  forall s cap,
    option_map list_ascii_of_string (Re.digits_plus s cap k)
    = ReChar.digits_plus ascii PyStr.is_digit
        (list_ascii_of_string s) (list_ascii_of_string cap) kl.
Proof.
  intros H [|c s] cap; simpl; [reflexivity|].
  destruct (PyStr.is_digit c); [|reflexivity].
  rewrite (digits_star_instance k kl H), list_of_append. reflexivity.
Qed.

Lemma literal_B_instance :
  kont_agree Re.literal_B (ReChar.literal_B ascii Ascii.eqb (fun a => a)).
Proof.
  intros cap [|c s]; simpl; [reflexivity|].
  rewrite <- is_B_instance. now destruct (Re.is_B c).
Qed.

Lemma opt_fraction_instance (k : Re.kont) (kl : ReChar.kont ascii) :
  kont_agree k kl ->
  kont_agree (Re.opt_fraction k)
             (ReChar.opt_fraction ascii Ascii.eqb (fun a => a)
                                  PyStr.is_digit kl).
Proof.
  intros H cap [|c s]; unfold Re.opt_fraction, ReChar.opt_fraction; simpl.
  - apply (H cap "").
  - unfold ReChar.is_dot. destruct (Ascii.eqb c ".") eqn:E.
    + change (list_ascii_of_string cap ++ [c])%list
        with (list_ascii_of_string cap
              ++ list_ascii_of_string (String c ""))%list.
      rewrite <- list_of_append.
      rewrite <- (digits_plus_instance k kl H s (cap ++ String c "")).
      destruct (Re.digits_plus s (cap ++ String c "") k); simpl;
        [reflexivity | apply (H cap (String c s))].
    + apply (H cap (String c s)).
Qed.

Lemma match_here_instance (s : string) :
  option_map list_ascii_of_string (Re.match_here s)
  = ReChar.match_here ascii Ascii.eqb (fun a => a) PyStr.is_digit
      (list_ascii_of_string s).
Proof.
  unfold Re.match_here, ReChar.match_here.
  apply (digits_plus_instance _ _
           (opt_fraction_instance _ _ literal_B_instance) s "").
Qed.

Lemma search_instance (s : string) :
  option_map list_ascii_of_string (Re.search s)
  = ReChar.search ascii Ascii.eqb (fun a => a) PyStr.is_digit
      (list_ascii_of_string s).
Proof.
  induction s as [|c s IH]; [reflexivity|].
  pose proof (match_here_instance (String c s)) as M.
  cbn [list_ascii_of_string] in M |- *. cbn [Re.search ReChar.search].
  rewrite <- M.
  destruct (Re.match_here (String c s)); simpl; [reflexivity | exact IH].
Qed.

(** The function of the pipeline is the matcher over the ASCII alphabet
    with the digits 0 to 9. *)
Lemma extract_params_ascii_instance (name : string) :
  list_ascii_of_string (extract_params name)
  = ReChar.extract_params_over ascii Ascii.eqb (fun a => a) PyStr.is_digit
      (list_ascii_of_string name).
Proof.
  unfold extract_params, ReChar.extract_params_over, ReChar.text.
  rewrite <- search_instance, !map_id.
  destruct (Re.search name); simpl; [apply list_of_append | reflexivity].
Qed.

End PatternInstance.

Example extract_params_examples :
  extract_params "llama-3-8b-instruct" = "8B"
  /\ extract_params "Qwen2.5-7B-Chat" = "7B"
  /\ extract_params "phi-1.5B" = "1.5B"
  /\ extract_params "llama-3" = "Unknown".
Proof. vm_compute. repeat split. Qed.

(** ** Deduplication *)

Section Deduplication.

Lemma lookup_store_same (k : string) (v : nat * record) (t : table) :
  lookup k (store k v t) = Some v.
Proof.
  induction t as [|[k' w] t IH]; simpl.
  - now rewrite String.eqb_refl.
  - destruct (k' =? k) eqn:E; simpl; rewrite E; [reflexivity | exact IH].
Qed.

Lemma lookup_store_other (k k' : string) (v : nat * record) (t : table) :
  k' <> k -> lookup k (store k' v t) = lookup k t.
Proof.
  intro N. induction t as [|[k0 w] t IH]; simpl.
  - apply String.eqb_neq in N. now rewrite N.
  - destruct (k0 =? k') eqn:E; simpl.
    + apply String.eqb_eq in E as ->.
      apply String.eqb_neq in N. now rewrite N.
    + now rewrite IH.
Qed.

Lemma lookup_keep_best_other (k k' : string) (s : nat) (r : record) (t : table) :
  k' <> k -> lookup k (keep_best t k' s r) = lookup k t.
Proof.
  intro N. unfold keep_best.
  destruct (lookup k' t) as [[s0 r0]|].
  - destruct (s0 <? s)%nat; [now apply lookup_store_other | reflexivity].
  - now apply lookup_store_other.
Qed.

Lemma lookup_keep_best_same (k : string) (s : nat) (r : record) (t : table) :
  lookup k (keep_best t k s r) =
  match lookup k t with
  | None => Some (s, r)
  | Some (s0, r0) => if (s0 <? s)%nat then Some (s, r) else Some (s0, r0)
  end.
Proof.
  unfold keep_best. destruct (lookup k t) as [[s0 r0]|] eqn:L.
  - destruct (s0 <? s)%nat; [apply lookup_store_same | exact L].
  - apply lookup_store_same.
Qed.

(** The score of a candidate is the quality signal of its path. *)
Lemma candidate_score (f : scanned_file) (k : string) (s : nat) (r : record) :
  process_file f = Candidate k s r -> s = is_embed (dna_path f).
Proof.
  unfold process_file.
  destruct (PyStr.endswith "_DRYRUN.json" (path_name (dna_path f)));
    [discriminate|].
  destruct (content f) as [[| | | | | |entries]|]; try discriminate.
  destruct (dict_get "signature" entries) as [[| | | | |[|x sig]|]|];
    try discriminate.
  intro H. now injection H as _ <- _.
Qed.

(** Files that are not candidates for [k] leave its entry alone. *)
Lemma lookup_scan_others (k : string) (fs : list scanned_file) :
  (forall f, In f fs -> candidate_key f <> Some k) ->
  forall t, lookup k (fold_left scan_file fs t) = lookup k t.
Proof.
  induction fs as [|f fs IH]; intros H t; simpl; [reflexivity|].
  rewrite IH by (intros g G; apply H; now right).
  specialize (H f (or_introl eq_refl)).
  unfold scan_file, candidate_key in *.
  destruct (process_file f) as [| |k' s r]; try reflexivity.
  apply lookup_keep_best_other. congruence.
Qed.

(** What a candidate for [k] does to the entry of [k]. *)
Lemma lookup_scan_file (k : string) (f : scanned_file) (r : record)
      (t : table) :
  candidate_key f = Some k -> candidate_record f = Some r ->
  lookup k (scan_file t f) =
  match lookup k t with
  | None => Some (is_embed (dna_path f), r)
  | Some (s0, r0) =>
      if (s0 <? is_embed (dna_path f))%nat
      then Some (is_embed (dna_path f), r) else Some (s0, r0)
  end.
Proof.
  unfold candidate_key, candidate_record, scan_file.
  destruct (process_file f) as [| |k' s r'] eqn:P; try discriminate.
  intros K R. injection K as ->. injection R as ->.
  rewrite (candidate_score f k s r P). apply lookup_keep_best_same.
Qed.

Lemma candidate_has_record (f : scanned_file) (k : string) :
  candidate_key f = Some k -> exists r, candidate_record f = Some r.
Proof.
  unfold candidate_key, candidate_record.
  destruct (process_file f) as [| |k' s r]; try discriminate.
  intros _. now exists r.
Qed.

(** The entry of [k] after a scan that meets two candidates for it. *)
Lemma lookup_two_candidates (k : string) (f1 f2 : scanned_file)
      (r1 r2 : record) (before between after : list scanned_file) :
  candidate_key f1 = Some k -> candidate_record f1 = Some r1 ->
  candidate_key f2 = Some k -> candidate_record f2 = Some r2 ->
  (forall f, In f (before ++ between ++ after)%list ->
             candidate_key f <> Some k) ->
  lookup k (scan (before ++ f1 :: between ++ f2 :: after)%list) =
  if (is_embed (dna_path f1) <? is_embed (dna_path f2))%nat
  then Some (is_embed (dna_path f2), r2)
  else Some (is_embed (dna_path f1), r1).
Proof.
  intros K1 R1 K2 R2 H. unfold scan.
  rewrite fold_left_app. cbn [fold_left].
  rewrite fold_left_app. cbn [fold_left].
  rewrite lookup_scan_others
    by (intros f F; apply H; rewrite !in_app_iff; auto).
  rewrite (lookup_scan_file k f2 r2 _ K2 R2).
  rewrite lookup_scan_others
    by (intros f F; apply H; rewrite !in_app_iff; auto).
  rewrite (lookup_scan_file k f1 r1 _ K1 R1).
  rewrite lookup_scan_others
    by (intros f F; apply H; rewrite !in_app_iff; auto).
  reflexivity.
Qed.

End Deduplication.

(** C6. The first candidate admitted for a key is stored; a later one
    replaces the stored entry exactly when its quality signal is strictly
    greater, so that on equal signals the earlier entry stays. *)
Theorem keep_best_policy (best_signature : table) (key : string)
        (score : nat) (rec : record) :
  lookup key (keep_best best_signature key score rec) =
  match lookup key best_signature with
  | None => Some (score, rec)
  | Some (stored, old) =>
      if (stored <? score)%nat then Some (score, rec) else Some (stored, old)
  end.
Proof. apply lookup_keep_best_same. Qed.

(** C1. When exactly two files of a scan are candidates for a key, one
    with "embed" in its lower-cased path and one without, the record
    retained for the key is the one of the "embed" file, whichever of the
    two comes first. *)
Theorem embed_candidate_wins (key : string) (fe fn : scanned_file)
        (before between after : list scanned_file) :
  candidate_key fe = Some key ->
  candidate_key fn = Some key ->
  PyStr.contains "embed" (PyStr.lower (dna_path fe)) = true ->
  PyStr.contains "embed" (PyStr.lower (dna_path fn)) = false ->
  (forall f, In f (before ++ between ++ after)%list ->
             candidate_key f <> Some key) ->
  retained key (before ++ fe :: between ++ fn :: after)%list
  = candidate_record fe
  /\ retained key (before ++ fn :: between ++ fe :: after)%list
     = candidate_record fe.
Proof.
  intros Ke Kn Ee En H.
  destruct (candidate_has_record fe key Ke) as [re Re].
  destruct (candidate_has_record fn key Kn) as [rn Rn].
  unfold retained.
  rewrite (lookup_two_candidates key fe fn re rn before between after
             Ke Re Kn Rn H).
  rewrite (lookup_two_candidates key fn fe rn re before between after
             Kn Rn Ke Re H).
  unfold is_embed. rewrite Ee, En, Re. split; reflexivity.
Qed.

Lemma embed_candidate_wins_witness :
  retained "meta-llama_Llama-3-8B"
           [sample_embed_file; sample_other_file; sample_plain_file]
  = candidate_record sample_embed_file
  /\ retained "meta-llama_Llama-3-8B"
              [sample_plain_file; sample_other_file; sample_embed_file]
     = candidate_record sample_embed_file.
Proof.
  apply (embed_candidate_wins "meta-llama_Llama-3-8B"
           sample_embed_file sample_plain_file [] [sample_other_file] []);
    [reflexivity | reflexivity | reflexivity | reflexivity |].
  intros f [<-|[]]. vm_compute. discriminate.
Defined.

(** ** The driver *)

Section DriverFacts.

Variable fit_transform :
  nat -> list (list pyobj) -> option (list (float * float)).

(** Scanning prints, and does nothing else. *)
Lemma scan_log_quiet (dir : string) (fs : list scanned_file) :
  existsb is_embedding_call (scan_log dir fs) = false
  /\ existsb is_write (scan_log dir fs) = false.
Proof.
  unfold scan_log. cbn [existsb is_embedding_call is_write orb].
  induction fs as [|f fs [IH1 IH2]]; [split; reflexivity|].
  cbn [flat_map]. rewrite !existsb_app, IH1, IH2.
  destruct (process_file f); split; reflexivity.
Qed.

(** C9. With fewer than two retained records the run ends in
    [sys.exit(1)]; the embedding stage has not been called and no output
    document has been written. *)
Theorem too_few_models_is_fatal (env : environment) :
  List.length (collect_signatures (files env)) < 2 ->
  snd (main fit_transform env) = SysExit 1
  /\ existsb is_embedding_call (fst (main fit_transform env)) = false
  /\ existsb is_write (fst (main fit_transform env)) = false.
Proof.
  intro H. unfold main.
  destruct (dir_exists env); cbn [negb]; [|repeat split].
  apply Nat.ltb_lt in H. rewrite H. cbn [fst snd].
  destruct (scan_log_quiet (dna_out_dir env) (files env)) as [Q1 Q2].
  rewrite !existsb_app, Q1, Q2. repeat split.
Qed.

End DriverFacts.

Lemma too_few_models_is_fatal_witness :
  snd (main failing_fit_transform sample_env) = SysExit 1
  /\ existsb is_embedding_call (fst (main failing_fit_transform sample_env))
     = false
  /\ existsb is_write (fst (main failing_fit_transform sample_env)) = false.
Proof.
  apply (too_few_models_is_fatal failing_fit_transform sample_env).
  vm_compute. lia.
Defined.

(** ** The scan as a whole *)

Section ScanFacts.

Lemma scan_snoc (fs : list scanned_file) (f : scanned_file) :
  scan (fs ++ [f])%list = scan_file (scan fs) f.
Proof. unfold scan. now rewrite fold_left_app. Qed.

Lemma candidate_keys_snoc (fs : list scanned_file) (f : scanned_file) :
  candidate_keys (fs ++ [f])%list =
  (candidate_keys fs ++ match candidate_key f with
                        | Some k => [k]
                        | None => []
                        end)%list.
Proof.
  unfold candidate_keys. rewrite flat_map_app. simpl.
  now rewrite app_nil_r.
Qed.

Lemma candidate_keys_in (fs : list scanned_file) (k : string) :
  In k (candidate_keys fs) <->
  exists f, In f fs /\ candidate_key f = Some k.
Proof.
  unfold candidate_keys. rewrite in_flat_map. split.
  - intros [f [F H]]. exists f. split; [exact F|].
    destruct (candidate_key f) as [k'|]; [|contradiction].
    destruct H as [->|[]]. reflexivity.
  - intros [f [F H]]. exists f. split; [exact F|]. rewrite H. now left.
Qed.

(** What a file yields when it is a candidate. *)
Lemma process_file_candidate (f : scanned_file) (k : string) (s : nat)
      (r : record) :
  process_file f = Candidate k s r ->
  PyStr.endswith "_DRYRUN.json" (path_name (dna_path f)) = false
  /\ exists entries x sig,
       content f = Some (PyDict entries)
       /\ dict_get "signature" entries = Some (PyList (x :: sig))
       /\ k = PyStr.replace "_dna" "" (path_stem (dna_path f))
       /\ s = is_embed (dna_path f)
       /\ r = make_record k (x :: sig).
Proof.
  unfold process_file.
  destruct (PyStr.endswith "_DRYRUN.json" (path_name (dna_path f)));
    [discriminate|].
  destruct (content f) as [[| | | | | |entries]|] eqn:C; try discriminate.
  destruct (dict_get "signature" entries) as [[| | | | |[|x sig]|]|] eqn:D;
    try discriminate.
  intro H. injection H as <- <- <-. split; [reflexivity|].
  exists entries, x, sig. repeat split. exact D.
Qed.

(** *** Keys of the table *)

Lemma lookup_none_keys (k : string) (t : table) :
  lookup k t = None <-> ~ In k (map fst t).
Proof.
  induction t as [|[k' v] t IH]; simpl.
  - tauto.
  - destruct (k' =? k) eqn:E.
    + apply String.eqb_eq in E. split; [discriminate | tauto].
    + apply String.eqb_neq in E. tauto.
Qed.

Lemma store_keys (k : string) (v : nat * record) (t : table) :
  map fst (store k v t) =
  match lookup k t with
  | Some _ => map fst t
  | None => (map fst t ++ [k])%list
  end.
Proof.
  induction t as [|[k' w] t IH]; simpl; [reflexivity|].
  destruct (k' =? k) eqn:E; simpl; [reflexivity|].
  rewrite IH. now destruct (lookup k t).
Qed.

Lemma keep_best_keys (k : string) (s : nat) (r : record) (t : table) :
  map fst (keep_best t k s r) =
  match lookup k t with
  | Some _ => map fst t
  | None => (map fst t ++ [k])%list
  end.
Proof.
  unfold keep_best. destruct (lookup k t) as [[s0 r0]|] eqn:L.
  - destruct (s0 <? s)%nat; [|reflexivity]. now rewrite store_keys, L.
  - now rewrite store_keys, L.
Qed.

Lemma store_in (k : string) (v : nat * record) (t : table)
      (e : string * (nat * record)) :
  In e (store k v t) -> e = (k, v) \/ In e t.
Proof.
  induction t as [|[k' w] t IH]; simpl.
  - intros [<-|[]]. now left.
  - destruct (k' =? k) eqn:E; simpl.
    + apply String.eqb_eq in E as ->. intros [<-|H]; auto.
    + intros [<-|H]; auto. destruct (IH H); auto.
Qed.

Lemma keep_best_in (k : string) (s : nat) (r : record) (t : table)
      (e : string * (nat * record)) :
  In e (keep_best t k s r) -> e = (k, (s, r)) \/ In e t.
Proof.
  unfold keep_best. destruct (lookup k t) as [[s0 r0]|].
  - destruct (s0 <? s)%nat; [apply store_in | auto].
  - apply store_in.
Qed.

(** *** First occurrences *)

Lemma first_occurrences_in (x : string) (l : list string) :
  In x (first_occurrences l) <-> In x l.
Proof.
  induction l as [|k l IH]; simpl; [tauto|].
  rewrite filter_In, IH, negb_true_iff, String.eqb_neq.
  destruct (string_dec k x) as [->|N]; [tauto|].
  split; [tauto|]. intros [H|H]; [contradiction|]. right. split; congruence.
Qed.

Lemma first_occurrences_nodup (l : list string) : NoDup (first_occurrences l).
Proof.
  induction l as [|k l IH]; simpl; constructor.
  - rewrite filter_In, String.eqb_refl. intros [_ H]. discriminate.
  - now apply NoDup_filter.
Qed.

Lemma first_occurrences_snoc (l : list string) (k : string) :
  first_occurrences (l ++ [k])%list =
  if in_dec string_dec k l then first_occurrences l
  else (first_occurrences l ++ [k])%list.
Proof.
  induction l as [|a l IH]; simpl; [reflexivity|].
  rewrite IH. destruct (string_dec a k) as [->|N].
  - destruct (in_dec string_dec k l) as [I|I]; [reflexivity|].
    rewrite filter_app. simpl. rewrite String.eqb_refl. simpl.
    now rewrite app_nil_r.
  - destruct (in_dec string_dec k l) as [I|I]; [reflexivity|].
    rewrite filter_app. simpl.
    assert (E : (k =? a) = false) by (apply String.eqb_neq; congruence).
    now rewrite E.
Qed.

(** The keys of the table are the candidate keys, each once, in the order
    in which they first occur. *)
Lemma scan_keys (fs : list scanned_file) :
  map fst (scan fs) = first_occurrences (candidate_keys fs).
Proof.
  induction fs as [|f fs IH] using rev_ind; [reflexivity|].
  rewrite scan_snoc, candidate_keys_snoc. unfold scan_file, candidate_key.
  destruct (process_file f) as [| |k s r].
  - now rewrite app_nil_r.
  - now rewrite app_nil_r.
  - rewrite keep_best_keys, first_occurrences_snoc, <- IH.
    destruct (in_dec string_dec k (candidate_keys fs)) as [I|I].
    + destruct (lookup k (scan fs)) eqn:L; [reflexivity|].
      apply lookup_none_keys in L. rewrite IH, first_occurrences_in in L.
      contradiction.
    + destruct (lookup k (scan fs)) eqn:L; [|reflexivity].
      assert (N : ~ In k (map fst (scan fs)))
        by (rewrite IH, first_occurrences_in; exact I).
      apply lookup_none_keys in N. congruence.
Qed.

(** Every entry of the table was produced by a file of the scan. *)
Lemma scan_entries (fs : list scanned_file) (k : string) (s : nat)
      (r : record) :
  In (k, (s, r)) (scan fs) ->
  exists f, In f fs /\ process_file f = Candidate k s r.
Proof.
  induction fs as [|f fs IH] using rev_ind; [intros []|].
  rewrite scan_snoc. unfold scan_file.
  destruct (process_file f) as [| |k' s' r'] eqn:P.
  - intro H. destruct (IH H) as [g [G Q]]. exists g.
    rewrite in_app_iff. auto.
  - intro H. destruct (IH H) as [g [G Q]]. exists g.
    rewrite in_app_iff. auto.
  - intro H. apply keep_best_in in H as [H|H].
    + injection H as -> -> ->. exists f. rewrite in_app_iff. simpl. auto.
    + destruct (IH H) as [g [G Q]]. exists g. rewrite in_app_iff. auto.
Qed.

Lemma lookup_in (k : string) (v : nat * record) (t : table) :
  lookup k t = Some v -> In (k, v) t.
Proof.
  induction t as [|[k' w] t IH]; simpl; [discriminate|].
  destruct (k' =? k) eqn:E.
  - apply String.eqb_eq in E as ->. intro H. injection H as ->. now left.
  - auto.
Qed.

Lemma collect_in (fs : list scanned_file) (r : record) :
  In r (collect_signatures fs) ->
  exists k s, In (k, (s, r)) (scan fs).
Proof.
  unfold collect_signatures. rewrite in_map_iff.
  intros [[k [s r']] [E H]]. simpl in E. subst r'. now exists k, s.
Qed.

Lemma collect_names (fs : list scanned_file) :
  map r_name (collect_signatures fs) = map fst (scan fs).
Proof.
  unfold collect_signatures. rewrite map_map. apply map_ext_in.
  intros [k [s r]] H. simpl.
  destruct (scan_entries fs k s r H) as [f [_ P]].
  apply process_file_candidate in P as [_ [en [x [sig [_ [_ [_ [_ ->]]]]]]]].
  reflexivity.
Qed.

(** A key with a candidate has an entry. *)
Lemma candidate_has_entry (fs : list scanned_file) (f : scanned_file)
      (k : string) :
  In f fs -> candidate_key f = Some k -> lookup k (scan fs) <> None.
Proof.
  intros F K L. apply lookup_none_keys in L.
  rewrite scan_keys, first_occurrences_in, candidate_keys_in in L.
  apply L. now exists f.
Qed.

(** The entry of a key is the first candidate of the highest score. *)
Lemma lookup_first_best (fs : list scanned_file) (k : string) :
  forall s r,
    lookup k (scan fs) = Some (s, r) ->
    exists l1 f l2,
      fs = (l1 ++ f :: l2)%list
      /\ process_file f = Candidate k s r
      /\ (forall g, In g l1 -> candidate_key g = Some k ->
                    is_embed (dna_path g) < s)
      /\ (forall g, In g l2 -> candidate_key g = Some k ->
                    is_embed (dna_path g) <= s).
Proof.
  induction fs as [|f fs IH] using rev_ind; [discriminate|].
  intros s r. rewrite scan_snoc.
  assert (Keep : lookup k (scan fs) = Some (s, r) ->
                 (candidate_key f = Some k -> is_embed (dna_path f) <= s) ->
                 exists l1 f0 l2,
                   (fs ++ [f])%list = (l1 ++ f0 :: l2)%list
                   /\ process_file f0 = Candidate k s r
                   /\ (forall g, In g l1 -> candidate_key g = Some k ->
                                 is_embed (dna_path g) < s)
                   /\ (forall g, In g l2 -> candidate_key g = Some k ->
                                 is_embed (dna_path g) <= s)).
  { intros L Hf. destruct (IH s r L) as [l1 [f0 [l2 [-> [P [H1 H2]]]]]].
    exists l1, f0, (l2 ++ [f])%list. rewrite <- app_assoc. simpl.
    repeat split; auto.
    intros g G. rewrite in_app_iff in G. destruct G as [G|[<-|[]]]; auto. }
  unfold scan_file. destruct (process_file f) as [| |k' s' r'] eqn:P.
  - intro L. apply Keep; [exact L|]. unfold candidate_key. now rewrite P.
  - intro L. apply Keep; [exact L|]. unfold candidate_key. now rewrite P.
  - destruct (string_dec k' k) as [->|N].
    + pose proof (candidate_score f k s' r' P) as Sf.
      rewrite lookup_keep_best_same.
      destruct (lookup k (scan fs)) as [[s0 r0]|] eqn:L.
      * destruct (s0 <? s')%nat eqn:C.
        -- intro H. injection H as <- <-. apply Nat.ltb_lt in C.
           destruct (IH s0 r0 eq_refl) as [l1 [f0 [l2 [E [P0 [H1 H2]]]]]].
           exists fs, f, []. repeat split; auto; [|intros g []].
           intros g G K. subst fs. rewrite in_app_iff in G. simpl in G.
           destruct G as [G|[<-|G]].
           ++ specialize (H1 g G K). lia.
           ++ rewrite <- (candidate_score _ _ _ _ P0). exact C.
           ++ specialize (H2 g G K). lia.
        -- intro H. injection H as <- <-. apply Nat.ltb_ge in C.
           apply Keep; [reflexivity|]. intros _. now rewrite <- Sf.
      * intro H. injection H as <- <-.
        exists fs, f, []. repeat split; auto; [|intros g []].
        intros g G K. now destruct (candidate_has_entry fs g k G K).
    + rewrite (lookup_keep_best_other k k' s' r' _ N).
      intro L. apply Keep; [exact L|].
      unfold candidate_key. rewrite P. congruence.
Qed.

(** A file that is no candidate may be dropped from the scan. *)
Lemma scan_drop (l1 l2 : list scanned_file) (f : scanned_file) :
  candidate_key f = None ->
  scan (l1 ++ f :: l2)%list = scan (l1 ++ l2)%list.
Proof.
  intro K. unfold scan. rewrite !fold_left_app. simpl.
  unfold scan_file at 2. unfold candidate_key in K.
  now destruct (process_file f).
Qed.

End ScanFacts.

(** X1. The retained records carry the candidate keys as their names, each
    key once, in the order in which the keys first occur in the scan. *)
Theorem collect_signatures_order (fs : list scanned_file) :
  map r_name (collect_signatures fs) = first_occurrences (candidate_keys fs).
Proof.
  rewrite collect_names.
  apply scan_keys.
Qed.

(** X2. No two retained records have the same name, and a name is retained
    exactly when some file of the scan is a candidate for it. *)
Theorem collect_signatures_one_per_key (fs : list scanned_file) :
  NoDup (map r_name (collect_signatures fs))
  /\ forall k, In k (map r_name (collect_signatures fs)) <->
               exists f, In f fs /\ candidate_key f = Some k.
Proof.
  rewrite collect_names, scan_keys. split.
  - apply first_occurrences_nodup.
  - intro k. now rewrite first_occurrences_in, candidate_keys_in.
Qed.

(** X3. The entry kept for a key is that of the earliest candidate with the
    highest score: every earlier candidate for the key scores strictly
    less, and no later one scores more. *)
Theorem retained_first_best (fs : list scanned_file) (k : string)
        (s : nat) (r : record) :
  lookup k (scan fs) = Some (s, r) ->
  exists l1 f l2,
    fs = (l1 ++ f :: l2)%list
    /\ candidate_key f = Some k
    /\ candidate_record f = Some r
    /\ is_embed (dna_path f) = s
    /\ (forall g, In g l1 -> candidate_key g = Some k ->
                  is_embed (dna_path g) < s)
    /\ (forall g, In g l2 -> candidate_key g = Some k ->
                  is_embed (dna_path g) <= s).
Proof.
  intro L. destruct (lookup_first_best fs k s r L)
    as [l1 [f [l2 [E [P [H1 H2]]]]]].
  exists l1, f, l2. unfold candidate_key, candidate_record. rewrite P.
  repeat split; auto. symmetry. exact (candidate_score f k s r P).
Qed.

Lemma retained_first_best_witness :
  exists l1 f l2,
    [sample_plain_file; sample_other_file; sample_embed_file]
    = (l1 ++ f :: l2)%list
    /\ candidate_key f = Some "meta-llama_Llama-3-8B"
    /\ candidate_record f
       = Some (make_record "meta-llama_Llama-3-8B" [PyInt 1; PyInt 2])
    /\ is_embed (dna_path f) = 1
    /\ (forall g, In g l1 -> candidate_key g = Some "meta-llama_Llama-3-8B" ->
                  is_embed (dna_path g) < 1)
    /\ (forall g, In g l2 -> candidate_key g = Some "meta-llama_Llama-3-8B" ->
                  is_embed (dna_path g) <= 1).
Proof.
  apply (retained_first_best
           [sample_plain_file; sample_other_file; sample_embed_file]
           "meta-llama_Llama-3-8B" 1
           (make_record "meta-llama_Llama-3-8B" [PyInt 1; PyInt 2])).
  reflexivity.
Defined.

(** X4. Every retained record comes from a file of the scan whose content
    is an object with a non-empty list under "signature": the record
    carries that list, and all its other fields are computed from its
    name alone. *)
Theorem collect_signatures_provenance (fs : list scanned_file) (r : record) :
  In r (collect_signatures fs) ->
  r_signature r <> []
  /\ r = make_record (r_name r) (r_signature r)
  /\ exists f entries,
       In f fs
       /\ content f = Some (PyDict entries)
       /\ dict_get "signature" entries = Some (PyList (r_signature r)).
Proof.
  intro H. destruct (collect_in fs r H) as [k [s E]].
  destruct (scan_entries fs k s r E) as [f [F P]].
  apply process_file_candidate in P
    as [_ [entries [x [sig [C [D [_ [_ ->]]]]]]]].
  cbn [make_record r_signature r_name].
  split; [discriminate|]. split; [reflexivity|]. now exists f, entries.
Qed.

Lemma collect_signatures_provenance_witness :
  r_signature (make_record "Qwen_Qwen2-7B" [PyInt 5; PyInt 6]) <> []
  /\ make_record "Qwen_Qwen2-7B" [PyInt 5; PyInt 6]
     = make_record
         (r_name (make_record "Qwen_Qwen2-7B" [PyInt 5; PyInt 6]))
         (r_signature (make_record "Qwen_Qwen2-7B" [PyInt 5; PyInt 6]))
  /\ exists f entries,
       In f [sample_other_file; sample_broken_file]
       /\ content f = Some (PyDict entries)
       /\ dict_get "signature" entries
          = Some (PyList (r_signature
                            (make_record "Qwen_Qwen2-7B" [PyInt 5; PyInt 6]))).
Proof.
  apply (collect_signatures_provenance
           [sample_other_file; sample_broken_file]
           (make_record "Qwen_Qwen2-7B" [PyInt 5; PyInt 6])).
  left. reflexivity.
Defined.

(** X5. A file that cannot be read, or whose content is not an object with
    a non-empty list under "signature", changes nothing: the scan retains
    the same records, in the same order, as without it. *)
Theorem malformed_file_ignored (l1 l2 : list scanned_file) (f : scanned_file) :
  (forall entries x sig,
      content f = Some (PyDict entries) ->
      dict_get "signature" entries <> Some (PyList (x :: sig))) ->
  collect_signatures (l1 ++ f :: l2)%list = collect_signatures (l1 ++ l2)%list.
Proof.
  intro H. unfold collect_signatures. rewrite scan_drop; [reflexivity|].
  unfold candidate_key. destruct (process_file f) as [| |k s r] eqn:P; auto.
  apply process_file_candidate in P as [_ [en [x [sig [C [D _]]]]]].
  now destruct (H en x sig C).
Qed.

Lemma malformed_file_ignored_witness :
  collect_signatures
    ([sample_plain_file] ++ sample_broken_file :: [sample_other_file])%list
  = collect_signatures ([sample_plain_file] ++ [sample_other_file])%list.
Proof.
  apply (malformed_file_ignored [sample_plain_file] [sample_other_file]
           sample_broken_file).
  intros entries x sig C. discriminate C.
Defined.

(** ** A whole run *)

Section DriverRun.

Variable fit_transform :
  nat -> list (list pyobj) -> option (list (float * float)).

Lemma skipn_nth_error {A : Type} (l : list A) (i : nat) (x : A) :
  nth_error l i = Some x -> skipn i l = x :: skipn (S i) l.
Proof.
  revert i; induction l as [|a l IH]; intros [|i]; simpl;
    try discriminate.
  - intro H. now injection H as ->.
  - apply IH.
Qed.

(** With enough rows, record [j] gets row [i + j]. *)
Lemma assign_coordinates_some (rs : list record) (e : list (float * float)) :
  forall i,
    i + List.length rs <= List.length e ->
    assign_coordinates i rs e =
    Some (map (fun p => set_xy (fst p) (snd p)) (combine rs (skipn i e))).
Proof.
  induction rs as [|r rs IH]; intros i H; simpl in *; [reflexivity|].
  destruct (nth_error e i) as [xy|] eqn:N.
  - rewrite (IH (S i)) by lia. rewrite (skipn_nth_error e i xy N).
    reflexivity.
  - apply nth_error_None in N. lia.
Qed.

(** With too few rows the loop raises. *)
Lemma assign_coordinates_none (rs : list record) (e : list (float * float)) :
  forall i,
    rs <> [] -> List.length e < i + List.length rs ->
    assign_coordinates i rs e = None.
Proof.
  induction rs as [|r rs IH]; intros i Hne H; [contradiction|]. simpl in *.
  destruct (nth_error e i) as [xy|] eqn:N; [|reflexivity].
  assert (I : i < List.length e) by (apply nth_error_Some; congruence).
  rewrite (IH (S i)); [reflexivity | | lia].
  destruct rs; [simpl in H; lia | discriminate].
Qed.


(** The shape of a run that gets past the two checks. *)
Lemma main_run (env : environment) :
  dir_exists env = true ->
  2 <= List.length (collect_signatures (files env)) ->
  let records := collect_signatures (files env) in
  let vectors := map r_signature records in
  let perplexity := Nat.min 30 (List.length records - 1) in
  let log :=
    (scan_log (dna_out_dir env) (files env)
     ++ [Print ("Found " ++ str_of_nat (List.length records) ++ " models");
         Print "Running t-SNE..."; FitTransform perplexity vectors])%list in
  main fit_transform env =
  match fit_transform perplexity vectors with
  | None => (log, Raised)
  | Some embeddings =>
      if (List.length records <=? List.length embeddings)%nat then
        ((log ++ [WriteJson (output_file env)
                    {| meta_count := List.length records;
                       meta_dataset := dataset_name env;
                       meta_generated := true;
                       models :=
                         map (fun p => set_xy (fst p) (snd p))
                             (combine records embeddings) |};
                  Print ("Database written to " ++ output_file env)])%list,
         Returned)
      else (log, Raised)
  end.
Proof.
  intros D N records vectors perplexity log. unfold main. rewrite D.
  cbn [negb]. fold records.
  assert (C : (List.length records <? 2)%nat = false)
    by (apply Nat.ltb_ge; exact N).
  rewrite C. fold vectors. fold perplexity.
  rewrite <- app_assoc. cbn [app]. fold log.
  destruct (fit_transform perplexity vectors) as [e|]; [|reflexivity].
  destruct (List.length records <=? List.length e)%nat eqn:L.
  - apply Nat.leb_le in L.
    rewrite (assign_coordinates_some records e 0) by (simpl; lia).
    cbn [skipn]. rewrite length_map, length_combine, Nat.min_l by lia.
    reflexivity.
  - apply Nat.leb_gt in L.
    rewrite (assign_coordinates_none records e 0); [reflexivity| |simpl; lia].
    intro E. unfold records in E. rewrite E in N. simpl in N. lia.
Qed.

Lemma main_returned (env : environment) :
  snd (main fit_transform env) = Returned <->
  dir_exists env = true
  /\ 2 <= List.length (collect_signatures (files env))
  /\ exists embeddings,
       fit_transform
         (Nat.min 30 (List.length (collect_signatures (files env)) - 1))
         (map r_signature (collect_signatures (files env)))
       = Some embeddings
       /\ List.length (collect_signatures (files env))
          <= List.length embeddings.
Proof.
  destruct (dir_exists env) eqn:D.
  - destruct (Nat.le_gt_cases 2 (List.length (collect_signatures (files env))))
      as [N|N].
    + rewrite (main_run env D N).
      destruct (fit_transform _ _) as [e|].
      * destruct (_ <=? _)%nat eqn:L; cbn [snd].
        -- apply Nat.leb_le in L. split; [|reflexivity].
           intros _. repeat split; auto. now exists e.
        -- apply Nat.leb_gt in L. split; [discriminate|].
           intros [_ [_ [e' [E L']]]]. injection E as <-. lia.
      * cbn [snd]. split; [discriminate|].
        intros [_ [_ [e' [E _]]]]. discriminate.
    + unfold main. rewrite D. cbn [negb].
      assert (C : (List.length (collect_signatures (files env)) <? 2)%nat
                  = true) by (apply Nat.ltb_lt; exact N).
      rewrite C. cbn [snd]. split; [discriminate|]. intros [_ [N' _]]. lia.
  - unfold main. rewrite D. cbn [negb snd].
    split; [discriminate|]. intros [E _]. discriminate.
Qed.

(** X6. The run returns normally only if the dataset directory exists,
    at least two records are retained, and the embedding stage returns at
    least one row per record. *)
Theorem main_returns_only_if (env : environment) :
  snd (main fit_transform env) = Returned ->
  dir_exists env = true
  /\ 2 <= List.length (collect_signatures (files env))
  /\ exists embeddings,
       fit_transform
         (Nat.min 30 (List.length (collect_signatures (files env)) - 1))
         (map r_signature (collect_signatures (files env)))
       = Some embeddings
       /\ List.length (collect_signatures (files env))
          <= List.length embeddings.
Proof. intro R. now apply main_returned. Qed.

(** X7. The output document is written exactly when the run returns
    normally: a run that exits or raises leaves no document behind. *)
Theorem written_iff_returned (env : environment) :
  existsb is_write (fst (main fit_transform env)) = true <->
  snd (main fit_transform env) = Returned.
Proof.
  assert (Q : forall l,
             existsb is_write (scan_log (dna_out_dir env) (files env) ++ l)
             = existsb is_write l).
  { intro l. rewrite existsb_app.
    destruct (scan_log_quiet (dna_out_dir env) (files env)) as [_ ->].
    reflexivity. }
  destruct (dir_exists env) eqn:D.
  - destruct (Nat.le_gt_cases 2 (List.length (collect_signatures (files env))))
      as [N|N].
    + rewrite (main_run env D N).
      destruct (fit_transform _ _) as [e|].
      * destruct (_ <=? _)%nat; cbn [fst snd];
          rewrite <- ?app_assoc, Q; cbn; split; (discriminate || reflexivity).
      * cbn [fst snd]. rewrite Q. cbn. split; discriminate.
    + unfold main. rewrite D. cbn [negb].
      assert (C : (List.length (collect_signatures (files env)) <? 2)%nat
                  = true) by (apply Nat.ltb_lt; exact N).
      rewrite C. cbn [fst snd]. rewrite <- app_assoc, Q. cbn.
      split; discriminate.
  - unfold main. rewrite D. cbn. split; discriminate.
Qed.

(** X8. When the run returns normally, the document written holds one
    model per retained record, in the order of the records, each with
    row [i] of the embedding as its coordinates and its other fields
    unchanged; the count in the metadata is the number of models. *)
Theorem main_output (env : environment) :
  snd (main fit_transform env) = Returned ->
  exists embeddings doc,
    fit_transform
      (Nat.min 30 (List.length (collect_signatures (files env)) - 1))
      (map r_signature (collect_signatures (files env)))
    = Some embeddings
    /\ In (WriteJson (output_file env) doc) (fst (main fit_transform env))
    /\ models doc
       = map (fun p => set_xy (fst p) (snd p))
             (combine (collect_signatures (files env)) embeddings)
    /\ List.length (models doc)
       = List.length (collect_signatures (files env))
    /\ meta_count doc = List.length (models doc)
    /\ meta_dataset doc = dataset_name env.
Proof.
  intro R. pose proof R as R'.
  apply main_returned in R' as [D [N [e [E L]]]].
  rewrite (main_run env D N), E in *. apply Nat.leb_le in L. rewrite L.
  apply Nat.leb_le in L.
  eexists e, _. split; [reflexivity|]. split.
  - cbn [fst]. rewrite in_app_iff. right. left. reflexivity.
  - cbn [models meta_count meta_dataset].
    rewrite length_map, length_combine, Nat.min_l by lia. repeat split.
Qed.


End DriverRun.

Lemma main_returns_only_if_witness :
  dir_exists sample_env_two = true
  /\ 2 <= List.length (collect_signatures (files sample_env_two))
  /\ exists embeddings,
       origin_fit_transform
         (Nat.min 30
            (List.length (collect_signatures (files sample_env_two)) - 1))
         (map r_signature (collect_signatures (files sample_env_two)))
       = Some embeddings
       /\ List.length (collect_signatures (files sample_env_two))
          <= List.length embeddings.
Proof.
  apply (main_returns_only_if origin_fit_transform sample_env_two).
  reflexivity.
Defined.

Lemma main_output_witness :
  exists embeddings doc,
    origin_fit_transform
      (Nat.min 30 (List.length (collect_signatures (files sample_env_two)) - 1))
      (map r_signature (collect_signatures (files sample_env_two)))
    = Some embeddings
    /\ In (WriteJson (output_file sample_env_two) doc)
          (fst (main origin_fit_transform sample_env_two))
    /\ models doc
       = map (fun p => set_xy (fst p) (snd p))
             (combine (collect_signatures (files sample_env_two)) embeddings)
    /\ List.length (models doc)
       = List.length (collect_signatures (files sample_env_two))
    /\ meta_count doc = List.length (models doc)
    /\ meta_dataset doc = dataset_name sample_env_two.
Proof.
  apply (main_output origin_fit_transform sample_env_two). reflexivity.
Defined.


(** ** More on identity resolution *)

Section ResolverMore.

Lemma prefix_empty (s : string) : prefix "" s = true.
Proof. now destruct s. Qed.

Lemma prefix_append (p a b : string) :
  prefix p a = true -> prefix p (a ++ b) = true.
Proof.
  revert a; induction p as [|x p IH]; intros a H; [apply prefix_empty|].
  destruct a as [|y a]; [discriminate|]. simpl in *.
  destruct (ascii_dec x y); [now apply IH | discriminate].
Qed.

Lemma contains_append_l (sub a b : string) :
  PyStr.contains sub a = true -> PyStr.contains sub (a ++ b) = true.
Proof.
  induction a as [|c a IH]; cbn [PyStr.contains]; intro H.
  - rewrite orb_false_r in H. destruct sub; [|discriminate].
    cbn [append]. destruct b; reflexivity.
  - apply orb_true_iff in H as [H|H].
    + change (String c a ++ b) with (String c (a ++ b)) .
      cbn [PyStr.contains].
      change (String c (a ++ b)) with (String c a ++ b).
      now rewrite (prefix_append _ _ b H).
    + cbn [append PyStr.contains]. rewrite (IH H). apply orb_true_r.
Qed.

Lemma contains_append_r (sub a b : string) :
  PyStr.contains sub b = true -> PyStr.contains sub (a ++ b) = true.
Proof.
  intro H. induction a as [|c a IH]; [exact H|].
  cbn [append PyStr.contains]. rewrite IH. apply orb_true_r.
Qed.

Lemma lower_append (a b : string) :
  PyStr.lower (a ++ b) = PyStr.lower a ++ PyStr.lower b.
Proof. induction a as [|c a IH]; simpl; [reflexivity | now rewrite IH]. Qed.

(** Replacing one character by another, character by character. *)
Lemma replace_char_cons (a b c : ascii) (s : string) :
  PyStr.replace (String a "") (String b "") (String c s) =
  String (if Ascii.eqb a c then b else c)
         (PyStr.replace (String a "") (String b "") s).
Proof.
  unfold PyStr.replace. cbn [PyStr.replace_from prefix String.length Nat.sub].
  destruct (ascii_dec a c) as [->|N].
  - rewrite Ascii.eqb_refl, prefix_empty. reflexivity.
  - apply Ascii.eqb_neq in N. now rewrite N.
Qed.

Lemma replace_hyphen_free (s : string) :
  PyStr.contains "-" (PyStr.replace "-" " " s) = false.
Proof.
  induction s as [|c s IH]; [reflexivity|].
  rewrite replace_char_cons, contains_char_cons, IH, orb_false_r.
  destruct (Ascii.eqb "-" c) eqn:E; [reflexivity | exact E].
Qed.

Lemma case_keeps_hyphen (c : ascii) :
  Ascii.eqb "-" (PyStr.to_upper c) = Ascii.eqb "-" c
  /\ Ascii.eqb "-" (PyStr.to_lower c) = Ascii.eqb "-" c.
Proof. destruct c as [[] [] [] [] [] [] [] []]; split; reflexivity. Qed.

Lemma title_from_hyphen_free (s : string) :
  forall b,
    PyStr.contains "-" s = false ->
    PyStr.contains "-" (PyStr.title_from b s) = false.
Proof.
  induction s as [|c s IH]; intros b H; [reflexivity|].
  rewrite contains_char_cons in H. apply orb_false_iff in H as [E H].
  cbn [PyStr.title_from]. rewrite contains_char_cons, (IH _ H), orb_false_r.
  destruct (case_keeps_hyphen c) as [U L]. destruct b; congruence.
Qed.

Lemma clean_org_hyphen_free (org : string) :
  PyStr.contains "-" (clean_org org) = false.
Proof.
  unfold clean_org, PyStr.title.
  apply title_from_hyphen_free, replace_hyphen_free.
Qed.

(** The six organizations of the keyword table go through the placeholder
    fallback, the cleaning and the special fixes unchanged. *)
Lemma canonical_keyword_org (model_id org : string) :
  In org ["Meta Llama"; "Qwen"; "Mistral"; "01-ai"; "Google"; "Microsoft"] ->
  canonical_org model_id org = org.
Proof.
  simpl. intros H.
  repeat (destruct H as [<-|H]; [reflexivity|]). contradiction.
Qed.

(** The same over a title-casing that acts on ASCII text as [PyStr.title]
    does. *)
Lemma canonical_keyword_org_with (title : string -> string) :
  (forall s, is_ascii s = true -> title s = PyStr.title s) ->
  forall model_id org,
    In org ["Meta Llama"; "Qwen"; "Mistral"; "01-ai"; "Google"; "Microsoft"] ->
    canonical_org_with title model_id org = org.
Proof.
  intros Ht model_id org H. unfold canonical_org_with, clean_org_with.
  simpl in H.
  repeat (destruct H as [<-|H];
          [ match goal with
            | |- context [resolve_placeholder model_id ?k] =>
                change (resolve_placeholder model_id k) with k
            end;
            rewrite Ht by reflexivity; reflexivity |]).
  contradiction.
Qed.

Lemma match_here_search (s t : string) :
  Re.match_here s = Some t -> Re.search s = Some t.
Proof. intro H. destruct s; cbn [Re.search]; now rewrite H. Qed.

End ResolverMore.

(** X10. Without an underscore, the first keyword of the table found in the
    lower-cased raw name decides: the organization is the table entry,
    which the cleaning and the special fixes leave as it is.  This holds
    whatever [str.lower] does to the name, and for every title-casing
    that acts on ASCII text as [PyStr.title] does. *)
Theorem keyword_organization (lower title : string -> string)
        (raw keyword org : string) :
  (forall s, is_ascii s = true -> title s = PyStr.title s) ->
  PyStr.contains "_" raw = false ->
  first_keyword (lower raw) = Some (keyword, org) ->
  organization_with lower title raw = org.
Proof.
  intros Ht U. unfold organization_with, titled_org_with.
  change (special_fixes (clean_org_with title (resolve_placeholder raw
            (fst (guess_org_name_with lower raw)))))
    with (canonical_org_with title raw (fst (guess_org_name_with lower raw))).
  unfold first_keyword, keyword_table, guess_org_name_with. rewrite U.
  cbn [find fst].
  repeat match goal with
         | |- context [if ?b then _ else _] =>
             destruct b;
             [ intro H; injection H as _ <-; cbn [fst];
               apply (canonical_keyword_org_with title Ht); simpl; tauto |]
         end.
  discriminate.
Qed.

Lemma keyword_organization_witness :
  organization_with PyStr.lower PyStr.title "Yi-01-AI-6B-chat" = "01-ai".
Proof.
  apply (keyword_organization PyStr.lower PyStr.title
           "Yi-01-AI-6B-chat" "01-ai" "01-ai");
    reflexivity.
Defined.

(** X11. No hyphen survives in the organization, except in the fixed name
    "01-ai". *)
Theorem organization_hyphen_free (raw : string) :
  organization (resolve raw) = "01-ai"
  \/ PyStr.contains "-" (organization (resolve raw)) = false.
Proof.
  unfold resolve, titled_org; cbn [organization].
  pose proof (clean_org_hyphen_free
                (resolve_placeholder raw (fst (guess_org_name raw)))) as H.
  set (org := clean_org _) in *. clearbody org. unfold special_fixes.
  destruct (PyStr.contains "Meta Llama" org || PyStr.contains "Llama" org).
  - right. reflexivity.
  - destruct (PyStr.contains "01 Ai" org).
    + left. reflexivity.
    + destruct (PyStr.contains "Qwen" org); right; [reflexivity | exact H].
Qed.

(** X12. The family follows a forced organization: with the organization
    "Meta Llama" the family is "Llama".  This holds whatever [str.title]
    does to the name, and for every lower-casing that maps an ASCII text
    at the start of a string as [PyStr.lower] does. *)
Theorem family_follows_organization (lower title : string -> string)
        (raw : string) :
  (forall a b, is_ascii a = true ->
               exists b', lower (a ++ b) = PyStr.lower a ++ b') ->
  organization_with lower title raw = "Meta Llama" ->
  family_with lower title raw = "Llama".
Proof.
  intros Hl H. unfold family_with. rewrite H.
  destruct (Hl "Meta Llama" ("/" ++ display_name_with lower raw) eq_refl)
    as [rest ->].
  unfold family_of.
  now rewrite (contains_append_l "llama" (PyStr.lower "Meta Llama") rest).
Qed.

Lemma family_follows_organization_witness :
  family_with PyStr.lower PyStr.title "llama-3-8b-instruct" = "Llama".
Proof.
  apply (family_follows_organization PyStr.lower PyStr.title
           "llama-3-8b-instruct").
  - intros a b _. exists (PyStr.lower b).
    induction a as [|c a IH]; simpl; [reflexivity | now rewrite IH].
  - reflexivity.
Defined.

(** X13. The result of parameter extraction is in normal form: extracting
    from it gives it back. *)
Theorem extract_params_idempotent (name : string) :
  extract_params (extract_params name) = extract_params name.
Proof.
  unfold extract_params at 2 3.
  destruct (Re.search name) as [t|] eqn:S; [|reflexivity].
  apply search_first_token in S as [pre [[Ht _] _]].
  unfold extract_params.
  rewrite (match_here_search (t ++ "B") t); [reflexivity|].
  apply token_match_here. split; [exact Ht|].
  exists "B"%char, "". split; [now right | reflexivity].
Qed.

(** X14. A raw name with no underscore, no hyphen and no keyword resolves
    to the organization "Others" and keeps its display name. *)
Theorem plain_name_is_others (raw : string) :
  PyStr.contains "_" raw = false ->
  PyStr.contains "-" raw = false ->
  known_keyword (PyStr.lower raw) = false ->
  organization (resolve raw) = "Others" /\ displayName (resolve raw) = raw.
Proof.
  intros U H K. unfold resolve, titled_org; cbn [organization displayName].
  rewrite (guess_no_keyword raw U K). cbn [fst snd].
  unfold resolve_placeholder. rewrite H. split; reflexivity.
Qed.

Lemma plain_name_is_others_witness :
  organization (resolve "gpt2") = "Others"
  /\ displayName (resolve "gpt2") = "gpt2".
Proof.
  apply (plain_name_is_others "gpt2"); reflexivity.
Defined.

(** ** From the path of a file to its key *)

Section PathFacts.

Lemma split_append (sep : ascii) (a b : string) :
  PyStr.split sep (a ++ String sep b) =
  (PyStr.split sep a ++ PyStr.split sep b)%list.
Proof.
  induction a as [|c a IH]; cbn [append PyStr.split].
  - now rewrite Ascii.eqb_refl.
  - destruct (Ascii.eqb c sep); [now rewrite IH|].
    rewrite IH. destruct (PyStr.split sep a) as [|h t] eqn:S.
    + now destruct (split_nonempty sep a).
    + reflexivity.
Qed.

Lemma last_app_nonempty {A : Type} (l1 l2 : list A) (d : A) :
  l2 <> [] -> last (l1 ++ l2) d = last l2 d.
Proof.
  intro N. induction l1 as [|x l1 IH]; [reflexivity|].
  cbn [app]. destruct (l1 ++ l2)%list eqn:E.
  - apply app_eq_nil in E as [_ E]. contradiction.
  - rewrite <- IH. reflexivity.
Qed.

Lemma contains_char_app (sep : ascii) (a b : string) :
  PyStr.contains (String sep "") (a ++ b) =
  PyStr.contains (String sep "") a || PyStr.contains (String sep "") b.
Proof.
  induction a as [|c a IH].
  - cbn [append]. reflexivity.
  - change (String c a ++ b) with (String c (a ++ b)).
    rewrite !contains_char_cons, IH. apply orb_assoc.
Qed.

(** The last component of a path. *)
Lemma path_name_join (dir name : string) :
  PyStr.contains "/" name = false ->
  path_name (dir ++ "/" ++ name) = name.
Proof.
  intro H. unfold path_name.
  change (dir ++ "/" ++ name) with (dir ++ String "/" name).
  rewrite split_append, last_app_nonempty by apply split_nonempty.
  now rewrite (split_absent "/" name H).
Qed.

Lemma rfind_append (c : ascii) (a b : string) :
  PyStr.rfind c (a ++ b) =
  match PyStr.rfind c b with
  | Some i => Some (String.length a + i)
  | None => PyStr.rfind c a
  end.
Proof.
  induction a as [|x a IH]; cbn [append PyStr.rfind String.length].
  - now destruct (PyStr.rfind c b).
  - rewrite IH. now destruct (PyStr.rfind c b).
Qed.

Lemma substring_append (a b : string) (n : nat) :
  substring 0 (String.length a + n) (a ++ b) = a ++ substring 0 n b.
Proof. induction a as [|c a IH]; simpl; [reflexivity | now rewrite IH]. Qed.

(** The stem of [<k>_dna.json] is [<k>_dna], dots in [k] or not. *)
Lemma path_stem_dna (dir k : string) :
  PyStr.contains "/" k = false ->
  path_stem (dir ++ "/" ++ k ++ "_dna.json") = k ++ "_dna".
Proof.
  intro H. unfold path_stem. rewrite path_name_join
    by (rewrite contains_char_app, H; reflexivity).
  rewrite rfind_append. cbn [PyStr.rfind Ascii.eqb Bool.eqb].
  rewrite append_length. cbn [String.length].
  assert (C : ((0 <? String.length k + 4)
               && (String.length k + 4 <? String.length k + 9 - 1))%nat
              = true).
  { apply andb_true_iff. split; apply Nat.ltb_lt; lia. }
  rewrite C, substring_append. reflexivity.
Qed.

Lemma endswith_suffix (p s : string) :
  PyStr.endswith p s = true -> exists a, s = a ++ p.
Proof.
  induction s as [|c s IH]; cbn [PyStr.endswith].
  - rewrite orb_false_r. intro H. apply String.eqb_eq in H as <-. now exists "".
  - intro H. apply orb_true_iff in H as [H|H].
    + apply String.eqb_eq in H as <-. now exists "".
    + destruct (IH H) as [a ->]. now exists (String c a).
Qed.

(** A name that ends in [_dna.json] does not end in [_DRYRUN.json]. *)
Lemma dna_not_dryrun (k : string) :
  PyStr.endswith "_DRYRUN.json" (k ++ "_dna.json") = false.
Proof.
  destruct (PyStr.endswith "_DRYRUN.json" (k ++ "_dna.json")) eqn:E;
    [|reflexivity].
  apply endswith_suffix in E as [a E].
  assert (L : String.length a <= String.length k).
  { apply (f_equal String.length) in E. rewrite !append_length in E.
    simpl in E. lia. }
  destruct (append_shorter _ _ _ _ E L) as [m [_ M]].
  assert (Lm : String.length m = 3).
  { apply (f_equal String.length) in M. rewrite append_length in M.
    simpl in M. lia. }
  destruct m as [|m1 [|m2 [|m3 [|m4 m]]]]; simpl in Lm; try lia.
  discriminate M.
Qed.

Lemma prefix_cons (a b : ascii) (p s : string) :
  prefix (String a p) (String b s) = Ascii.eqb a b && prefix p s.
Proof.
  cbn [prefix]. destruct (ascii_dec a b) as [->|N].
  - now rewrite Ascii.eqb_refl.
  - apply Ascii.eqb_neq in N. now rewrite N.
Qed.

(** A pattern without [sep] that matches at the start of [k ++ sep ++ q]
    matches inside [k]. *)
Lemma prefix_before (sep : ascii) (p k q : string) :
  PyStr.contains (String sep "") p = false ->
  prefix p (k ++ String sep q) = true -> prefix p k = true.
Proof.
  revert k; induction p as [|a p IH]; intros k C H; [apply prefix_empty|].
  rewrite contains_char_cons in C. apply orb_false_iff in C as [E C].
  destruct k as [|b k].
  - cbn [append] in H. rewrite prefix_cons in H.
    apply andb_true_iff in H as [H _]. rewrite Ascii.eqb_sym in H. congruence.
  - change (String b k ++ String sep q) with (String b (k ++ String sep q)) in H.
    rewrite prefix_cons in *. apply andb_true_iff in H as [-> H].
    now rewrite (IH k C H).
Qed.

(** Stripping [_dna] from [<k>_dna] gives [k] back. *)
Lemma replace_dna (k : string) :
  PyStr.contains "_dna" k = false ->
  PyStr.replace "_dna" "" (k ++ "_dna") = k.
Proof.
  unfold PyStr.replace. induction k as [|c k IH]; intro H; [reflexivity|].
  cbn [PyStr.contains] in H. apply orb_false_iff in H as [P H].
  change (String c k ++ "_dna") with (String c (k ++ "_dna")).
  cbn [PyStr.replace_from].
  assert (Q : prefix "_dna" (String c (k ++ "_dna")) = false).
  { destruct (prefix "_dna" (String c (k ++ "_dna"))) eqn:E; [|reflexivity].
    rewrite prefix_cons in E, P. apply andb_true_iff in E as [E1 E2].
    rewrite E1 in P. cbn [andb] in P.
    change (k ++ "_dna") with (k ++ String "_" "dna") in E2.
    rewrite (prefix_before "_" "dna" k "dna" eq_refl E2) in P. discriminate. }
  rewrite Q, (IH H). reflexivity.
Qed.

End PathFacts.

(** X15. A file named [<k>_dna.json], in any directory, whose content is an
    object with a non-empty list under "signature", is a candidate for the
    key [k], provided [k] has no slash and no occurrence of [_dna]. *)
Theorem file_name_gives_key (dir k : string)
        (entries : list (string * pyobj)) (x : pyobj) (sig : list pyobj) :
  PyStr.contains "/" k = false ->
  PyStr.contains "_dna" k = false ->
  dict_get "signature" entries = Some (PyList (x :: sig)) ->
  process_file (mkFile (dir ++ "/" ++ k ++ "_dna.json")
                       (Some (PyDict entries)))
  = Candidate k (is_embed (dir ++ "/" ++ k ++ "_dna.json"))
              (make_record k (x :: sig)).
Proof.
  intros S D G. unfold process_file. cbn [dna_path content].
  rewrite path_name_join by (rewrite contains_char_app, S; reflexivity).
  rewrite dna_not_dryrun, G, (path_stem_dna dir k S), (replace_dna k D).
  reflexivity.
Qed.

Lemma file_name_gives_key_witness :
  process_file
    (mkFile ("dna-out/d/base" ++ "/" ++ "Qwen_Qwen2.5-7B" ++ "_dna.json")
            (Some (PyDict [("signature", PyList [PyInt 5; PyInt 6])])))
  = Candidate "Qwen_Qwen2.5-7B"
              (is_embed ("dna-out/d/base" ++ "/" ++ "Qwen_Qwen2.5-7B"
                         ++ "_dna.json"))
              (make_record "Qwen_Qwen2.5-7B" [PyInt 5; PyInt 6]).
Proof.
  apply (file_name_gives_key "dna-out/d/base" "Qwen_Qwen2.5-7B"
           [("signature", PyList [PyInt 5; PyInt 6])] (PyInt 5) [PyInt 6]);
    reflexivity.
Defined.

(** ** The configuration pattern *)

Section ConfigPattern.

Lemma take_drop_while (p : ascii -> bool) (s : string) :
  take_while p s ++ drop_while p s = s.
Proof.
  induction s as [|c s IH]; simpl; [reflexivity|].
  destruct (p c); simpl; [now rewrite IH | reflexivity].
Qed.

Lemma take_while_all (p : ascii -> bool) (s : string) :
  all_chars p (take_while p s) = true.
Proof.
  induction s as [|c s IH]; simpl; [reflexivity|].
  destruct (p c) eqn:P; simpl; [now rewrite P | reflexivity].
Qed.

(** A run followed by a character outside the class is the longest one. *)
Lemma take_while_run (p : ascii -> bool) (d : string) (c : ascii)
      (r : string) :
  all_chars p d = true -> p c = false ->
  take_while p (d ++ String c r) = d
  /\ drop_while p (d ++ String c r) = String c r.
Proof.
  intros Hd Hc. induction d as [|a d IH]; simpl in *.
  - now rewrite Hc.
  - apply andb_true_iff in Hd as [Ha Hd]. rewrite Ha.
    destruct (IH Hd) as [-> ->]. auto.
Qed.

Lemma space_not_quote (c : ascii) :
  ReConfig.is_space c = true -> ReConfig.is_quote c = false.
Proof.
  destruct c as [[] [] [] [] [] [] [] []]; vm_compute; intro H;
    first [reflexivity | discriminate H].
Qed.

Lemma literal_append (text r : string) (k : string -> option string) :
  ReConfig.literal text (text ++ r) k = k r.
Proof.
  induction text as [|a text IH]; simpl; [reflexivity|].
  now rewrite Ascii.eqb_refl.
Qed.

Lemma literal_inv (text s : string) (k : string -> option string)
      (g : string) :
  ReConfig.literal text s k = Some g ->
  exists r, s = text ++ r /\ k r = Some g.
Proof.
  revert s; induction text as [|a text IH]; intros s; simpl.
  - intro H. now exists s.
  - destruct s as [|b s]; [discriminate|].
    destruct (Ascii.eqb a b) eqn:E; [|discriminate].
    apply Ascii.eqb_eq in E as <-. intro H.
    destruct (IH s H) as [r [-> K]]. now exists r.
Qed.

(** Giving white space back never helps: a quote must follow. *)
Lemma spaces_star_greedy (k : string -> option string) :
  (forall c r, ReConfig.is_space c = true -> k (String c r) = None) ->
  forall s, ReConfig.spaces_star s k = k (drop_while ReConfig.is_space s).
Proof.
  intros Hk. induction s as [|c s IH]; simpl; [reflexivity|].
  destruct (ReConfig.is_space c) eqn:S; [|reflexivity].
  rewrite IH. destruct (k (drop_while ReConfig.is_space s));
    [reflexivity | now apply Hk].
Qed.

Lemma quote_rejects_space (k : string -> option string) (c : ascii)
      (r : string) :
  ReConfig.is_space c = true -> ReConfig.quote k (String c r) = None.
Proof.
  intro S. unfold ReConfig.quote. now rewrite (space_not_quote c S).
Qed.

(** Giving name characters back never helps either. *)
Lemma name_star_greedy (s : string) :
  forall cap,
    ReConfig.name_star s cap ReConfig.closing_quote =
    ReConfig.closing_quote (cap ++ take_while not_quote s)
                           (drop_while not_quote s).
Proof.
  induction s as [|c s IH]; intro cap;
    cbn [ReConfig.name_star take_while drop_while].
  - now rewrite append_empty_r.
  - change (not_quote c) with (negb (ReConfig.is_quote c)).
    destruct (ReConfig.is_quote c) eqn:Q; cbn [negb].
    + now rewrite append_empty_r.
    + rewrite IH, append_assoc. cbn [append].
      destruct (ReConfig.closing_quote (cap ++ String c (take_while not_quote s))
                                       (drop_while not_quote s));
        [reflexivity|].
      unfold ReConfig.closing_quote. now rewrite Q.
Qed.

Lemma name_plus_greedy (s cap : string) :
  ReConfig.name_plus s cap ReConfig.closing_quote =
  match take_while not_quote s with
  | EmptyString => None
  | String _ _ =>
      ReConfig.closing_quote (cap ++ take_while not_quote s)
                             (drop_while not_quote s)
  end.
Proof.
  destruct s as [|c s]; cbn [ReConfig.name_plus take_while drop_while];
    [reflexivity|].
  change (not_quote c) with (negb (ReConfig.is_quote c)).
  destruct (ReConfig.is_quote c); cbn [negb]; [reflexivity|].
  rewrite name_star_greedy, append_assoc. reflexivity.
Qed.

(** What follows the literal text, in a match. *)
Lemma after_literal (r name : string) :
  ReConfig.spaces_star r
    (ReConfig.quote (fun s2 => ReConfig.name_plus s2 "" ReConfig.closing_quote))
  = Some name <->
  exists ws q1 q2 post,
    r = ws ++ String q1 (name ++ String q2 post)
    /\ all_chars ReConfig.is_space ws = true
    /\ ReConfig.is_quote q1 = true
    /\ ReConfig.is_quote q2 = true
    /\ name <> ""
    /\ all_chars not_quote name = true.
Proof.
  rewrite spaces_star_greedy by (intros; now apply quote_rejects_space).
  split.
  - pose proof (take_drop_while ReConfig.is_space r) as Hr.
    pose proof (take_while_all ReConfig.is_space r) as Hw.
    destruct (drop_while ReConfig.is_space r) as [|q1 r2]; [discriminate|].
    unfold ReConfig.quote. destruct (ReConfig.is_quote q1) eqn:Q1;
      [|discriminate].
    rewrite name_plus_greedy.
    pose proof (take_drop_while not_quote r2) as Hr2.
    pose proof (take_while_all not_quote r2) as Hn.
    destruct (take_while not_quote r2) as [|c n] eqn:T; [discriminate|].
    change ("" ++ String c n) with (String c n).
    unfold ReConfig.closing_quote.
    destruct (drop_while not_quote r2) as [|q2 post]; [discriminate|].
    destruct (ReConfig.is_quote q2) eqn:Q2; [|discriminate].
    intro H. injection H as <-.
    exists (take_while ReConfig.is_space r), q1, q2, post.
    rewrite Hr2. repeat split; auto. discriminate.
  - intros [ws [q1 [q2 [post [-> [Hw [Q1 [Q2 [Hne Hn]]]]]]]]].
    assert (S1 : ReConfig.is_space q1 = false).
    { destruct (ReConfig.is_space q1) eqn:S; [|reflexivity].
      rewrite (space_not_quote q1 S) in Q1. discriminate. }
    destruct (take_while_run ReConfig.is_space ws q1
                (name ++ String q2 post) Hw S1) as [_ ->].
    unfold ReConfig.quote. rewrite Q1, name_plus_greedy.
    assert (N2 : not_quote q2 = false) by (unfold not_quote; now rewrite Q2).
    destruct (take_while_run not_quote name q2 post Hn N2) as [-> ->].
    destruct name as [|c n]; [contradiction|].
    unfold ReConfig.closing_quote. now rewrite Q2.
Qed.

Lemma match_here_entry (s name : string) :
  ReConfig.match_here s = Some name <-> entry_at s "" name.
Proof.
  unfold ReConfig.match_here, entry_at. split.
  - intro H. apply literal_inv in H as [r [-> H]].
    apply after_literal in H
      as [ws [q1 [q2 [post [-> [Hw [Q1 [Q2 [Hne Hn]]]]]]]]].
    now exists ws, q1, q2, post.
  - intros [ws [q1 [q2 [post [-> H]]]]]. cbn [append].
    change (String "d" (String "a" (String "t" (String "a" (String "s"
             (String "e" (String "t" (String ":"
               (ws ++ String q1 (name ++ String q2 post))))))))))
      with ("dataset:" ++ (ws ++ String q1 (name ++ String q2 post))).
    rewrite literal_append. apply after_literal.
    now exists ws, q1, q2, post.
Qed.

Lemma entry_at_suffix (content pre name : string) :
  entry_at content pre name <->
  exists suf, content = pre ++ suf /\ ReConfig.match_here suf = Some name.
Proof.
  split.
  - intros [ws [q1 [q2 [post [-> H]]]]].
    exists ("dataset:" ++ ws ++ String q1 (name ++ String q2 post)).
    split; [reflexivity|]. apply match_here_entry.
    now exists ws, q1, q2, post.
  - intros [suf [-> H]]. apply match_here_entry in H
      as [ws [q1 [q2 [post [-> H]]]]].
    now exists ws, q1, q2, post.
Qed.

Lemma config_search_none (s : string) :
  ReConfig.search s = None ->
  forall pre suf, s = pre ++ suf -> ReConfig.match_here suf = None.
Proof.
  induction s as [|c s IH]; cbn [ReConfig.search].
  - intros _ pre suf H. symmetry in H.
    apply append_eq_empty in H as [_ ->]. reflexivity.
  - destruct (ReConfig.match_here (String c s)) eqn:M; [discriminate|].
    intros H [|a pre] suf E; simpl in E.
    + now subst suf.
    + injection E as _ E. now apply (IH H pre).
Qed.

Lemma config_search_some (s t : string) :
  ReConfig.search s = Some t ->
  exists pre suf,
    s = pre ++ suf /\ ReConfig.match_here suf = Some t /\
    forall pre' suf', s = pre' ++ suf' ->
                      String.length pre' < String.length pre ->
                      ReConfig.match_here suf' = None.
Proof.
  induction s as [|c s IH]; cbn [ReConfig.search].
  - discriminate.
  - destruct (ReConfig.match_here (String c s)) eqn:M.
    + intro H. injection H as ->. exists "", (String c s).
      repeat split; auto. simpl. intros; lia.
    + intro H. destruct (IH H) as [pre [suf [-> [Hm Hmin]]]].
      exists (String c pre), suf. repeat split; auto.
      intros [|a pre'] suf' E L; simpl in *.
      * now subst suf'.
      * injection E as _ E. apply (Hmin pre' suf' E). lia.
Qed.

Lemma config_search_first (content name : string) :
  ReConfig.search content = Some name <-> first_entry content name.
Proof.
  split.
  - intro H.
    destruct (config_search_some content name H) as [pre [suf [-> [Hm Hmin]]]].
    exists pre. split.
    + apply entry_at_suffix. now exists suf.
    + intros pre' t' Ht'. apply entry_at_suffix in Ht' as [suf' [E Hm']].
      destruct (Nat.le_gt_cases (String.length pre) (String.length pre'))
        as [L|L]; [exact L|].
      rewrite (Hmin pre' suf' E L) in Hm'. discriminate.
  - intros [pre [Ht Hmin]].
    pose proof Ht as Ht0. apply entry_at_suffix in Ht0 as [suf [E Hm]].
    destruct (ReConfig.search content) as [t0|] eqn:S.
    + destruct (config_search_some content t0 S)
        as [pre0 [suf0 [E0 [Hm0 Hmin0]]]].
      assert (L : String.length pre <= String.length pre0).
      { apply (Hmin pre0 t0). apply entry_at_suffix. now exists suf0. }
      destruct (Nat.eq_dec (String.length pre) (String.length pre0)) as [Q|Q].
      * rewrite E in E0. destruct (append_same_length _ _ _ _ E0 Q) as [_ <-].
        congruence.
      * rewrite (Hmin0 pre suf E) in Hm; [discriminate | lia].
    + rewrite (config_search_none content S pre suf E) in Hm. discriminate.
Qed.

Lemma config_search_no_entry (content : string) :
  ReConfig.search content = None <-> no_entry content.
Proof.
  split.
  - intros S pre name T. apply entry_at_suffix in T as [suf [E Hm]].
    rewrite (config_search_none content S pre suf E) in Hm. discriminate.
  - intro N. destruct (ReConfig.search content) as [t|] eqn:S; [|reflexivity].
    apply config_search_first in S as [pre [T _]]. now destruct (N pre t).
Qed.

End ConfigPattern.

(** X16. The dataset of a configuration text of ASCII characters is the
    name of its first entry: the leftmost place where [dataset:], optional
    white space, a quote, a non-empty name without quotes and a quote
    follow one another; without such a place it is the default dataset. *)
Theorem load_config_first_entry (content result : string) :
  is_ascii content = true ->
  load_config (Some content) = result <->
  (exists name, first_entry content name /\ result = name)
  \/ (no_entry content /\ result = default_dataset).
Proof.
  intros _. unfold load_config. split.
  - intros <-. destruct (ReConfig.search content) as [t|] eqn:S.
    + left. exists t. split; [now apply config_search_first | reflexivity].
    + right. split; [now apply config_search_no_entry | reflexivity].
  - intros [[t [Ht ->]] | [N ->]].
    + apply config_search_first in Ht. now rewrite Ht.
    + apply config_search_no_entry in N. now rewrite N.
Qed.

Lemma load_config_first_entry_witness :
  load_config (Some "export default { dataset: 'squad_cqa', port: 1 }")
  = "squad_cqa" <->
  (exists name,
      first_entry "export default { dataset: 'squad_cqa', port: 1 }" name
      /\ "squad_cqa" = name)
  \/ (no_entry "export default { dataset: 'squad_cqa', port: 1 }"
      /\ "squad_cqa" = default_dataset).
Proof.
  apply (load_config_first_entry
           "export default { dataset: 'squad_cqa', port: 1 }" "squad_cqa").
  reflexivity.
Defined.

(** X17. Whatever the configuration, the dataset name is never empty and
    holds no quote character. *)
Theorem load_config_name_wellformed (config_js : option string) :
  load_config config_js <> ""
  /\ all_chars not_quote (load_config config_js) = true.
Proof.
  unfold load_config. destruct config_js as [content|];
    [|split; [discriminate | reflexivity]].
  destruct (ReConfig.search content) as [t|] eqn:S;
    [|split; [discriminate | reflexivity]].
  apply config_search_first in S
    as [pre [[ws [q1 [q2 [post [_ [_ [_ [_ [Hne Hn]]]]]]]]] _]].
  auto.
Qed.

Example load_config_examples :
  load_config (Some "export default { dataset: 'squad_cqa', port: 1 }")
  = "squad_cqa"
  /\ load_config (Some "dataset:'' , dataset : 'a', dataset:   'b'") = "b"
  /\ load_config (Some "dataset = 'squad'") = default_dataset
  /\ load_config None = default_dataset.
Proof. vm_compute. repeat split. Qed.

(** ** Skipped and reported files *)

Section Reporting.

(** The [except] clause is reached exactly when the file is no dry run and
    its content could not be read or is not an object. *)
Lemma process_file_failed (f : scanned_file) :
  process_file f = Failed <->
  PyStr.endswith "_DRYRUN.json" (path_name (dna_path f)) = false
  /\ forall entries, content f <> Some (PyDict entries).
Proof.
  unfold process_file.
  destruct (PyStr.endswith "_DRYRUN.json" (path_name (dna_path f))).
  - split; [discriminate | intros [H _]; discriminate].
  - destruct (content f) as [[| | | | | |entries]|];
      try (split; [intros _; split; [reflexivity | discriminate]
                  | reflexivity]).
    split.
    + destruct (dict_get "signature" entries) as [[| | | | |[|x sig]|]|];
        discriminate.
    + intros [_ H]. now destruct (H entries).
Qed.

End Reporting.

(** X18. The scan reports a file exactly when it is no dry run and its
    content could not be read or is not an object; a readable object
    without a usable signature is passed over without a message. *)
Theorem errors_reported (dir path : string) (fs : list scanned_file) :
  In (ErrorReading path) (scan_log dir fs) <->
  exists f,
    In f fs /\ dna_path f = path
    /\ PyStr.endswith "_DRYRUN.json" (path_name (dna_path f)) = false
    /\ forall entries, content f <> Some (PyDict entries).
Proof.
  unfold scan_log. cbn [In]. rewrite in_flat_map. split.
  - intros [H|[f [F H]]]; [discriminate|].
    destruct (process_file f) eqn:P; try contradiction.
    destruct H as [H|[]]. injection H as H.
    apply process_file_failed in P as [D C]. now exists f.
  - intros [f [F [E [D C]]]]. right. exists f. split; [exact F|].
    rewrite (proj2 (process_file_failed f) (conj D C)). left. now rewrite E.
Qed.

(** X19. A file name that ends in [_dna.json], as the names the scan
    pattern selects do, never ends in [_DRYRUN.json]: for such files the
    dry-run test is always false. *)
Theorem dry_run_test_idle (f : scanned_file) :
  PyStr.endswith "_dna.json" (path_name (dna_path f)) = true ->
  PyStr.endswith "_DRYRUN.json" (path_name (dna_path f)) = false.
Proof.
  intro H. apply endswith_suffix in H as [k ->]. apply dna_not_dryrun.
Qed.

Lemma dry_run_test_idle_witness :
  PyStr.endswith "_DRYRUN.json" (path_name (dna_path sample_embed_file))
  = false.
Proof. apply (dry_run_test_idle sample_embed_file). reflexivity. Defined.

(** ** The order of the scan *)

Section ScanOrder.

(** The score kept for a key bounds the score of every candidate for it. *)
Lemma lookup_score_max (fs : list scanned_file) (k : string) (s : nat)
      (r : record) (g : scanned_file) :
  lookup k (scan fs) = Some (s, r) ->
  In g fs -> candidate_key g = Some k ->
  is_embed (dna_path g) <= s.
Proof.
  intros L G K.
  destruct (lookup_first_best fs k s r L) as [l1 [f [l2 [-> [P [H1 H2]]]]]].
  apply in_app_iff in G as [G|[<-|G]].
  - specialize (H1 g G K). lia.
  - rewrite <- (candidate_score _ _ _ _ P). lia.
  - exact (H2 g G K).
Qed.

(** The entry kept for a key is a candidate of the scan. *)
Lemma lookup_from_candidate (fs : list scanned_file) (k : string) (s : nat)
      (r : record) :
  lookup k (scan fs) = Some (s, r) ->
  exists f, In f fs /\ candidate_key f = Some k
            /\ candidate_record f = Some r /\ is_embed (dna_path f) = s.
Proof.
  intro L.
  destruct (lookup_first_best fs k s r L) as [l1 [f [l2 [-> [P _]]]]].
  exists f. unfold candidate_key, candidate_record. rewrite P.
  repeat split; [rewrite in_app_iff; simpl; auto|].
  symmetry. exact (candidate_score f k s r P).
Qed.

Lemma scan_entry_same_files (fs fs' : list scanned_file) (k : string) :
  (forall f, In f fs <-> In f fs') ->
  match lookup k (scan fs), lookup k (scan fs') with
  | Some (s, r), Some (s', r') =>
      s = s' /\ exists f f', In f fs /\ In f' fs
                             /\ candidate_key f = Some k
                             /\ candidate_key f' = Some k
                             /\ is_embed (dna_path f) = is_embed (dna_path f')
                             /\ candidate_record f = Some r
                             /\ candidate_record f' = Some r'
  | None, None => True
  | _, _ => False
  end.
Proof.
  intro E.
  destruct (lookup k (scan fs)) as [[s r]|] eqn:L;
    destruct (lookup k (scan fs')) as [[s' r']|] eqn:L'; auto.
  - destruct (lookup_from_candidate fs k s r L) as [f [F [K [R S]]]].
    destruct (lookup_from_candidate fs' k s' r' L') as [f' [F' [K' [R' S']]]].
    pose proof (lookup_score_max fs' k s' r' f L' (proj1 (E f) F) K).
    pose proof (lookup_score_max fs k s r f' L (proj2 (E f') F') K').
    assert (Es : s = s') by lia. split; [exact Es|].
    exists f, f'. repeat split; auto; [now apply E | congruence].
  - destruct (lookup_from_candidate fs k s r L) as [f [F [K _]]].
    now destruct (candidate_has_entry fs' f k (proj1 (E f) F) K).
  - destruct (lookup_from_candidate fs' k s' r' L') as [f' [F' [K' _]]].
    now destruct (candidate_has_entry fs f' k (proj2 (E f') F') K').
Qed.

End ScanOrder.

(** X20. The score kept for a key does not depend on the order in which
    the files are met: two scans of the same files have an entry for the
    same keys and keep the same score for each. *)
Theorem kept_score_order_independent (fs fs' : list scanned_file)
        (k : string) :
  (forall f, In f fs <-> In f fs') ->
  option_map fst (lookup k (scan fs)) = option_map fst (lookup k (scan fs')).
Proof.
  intro E. pose proof (scan_entry_same_files fs fs' k E) as H.
  destruct (lookup k (scan fs)) as [[s r]|];
    destruct (lookup k (scan fs')) as [[s' r']|]; try contradiction.
  - destruct H as [-> _]. reflexivity.
  - reflexivity.
Qed.

Lemma kept_score_order_independent_witness :
  option_map fst
    (lookup "meta-llama_Llama-3-8B"
            (scan [sample_plain_file; sample_embed_file]))
  = option_map fst
      (lookup "meta-llama_Llama-3-8B"
              (scan [sample_embed_file; sample_plain_file])).
Proof.
  apply (kept_score_order_independent
           [sample_plain_file; sample_embed_file]
           [sample_embed_file; sample_plain_file]).
  intro f. simpl. tauto.
Defined.

(** X21. When candidates for a key that have the same score carry the same
    record, the record retained for the key does not depend on the order
    of the scan either. *)
Theorem retained_order_independent (fs fs' : list scanned_file)
        (k : string) :
  (forall f, In f fs <-> In f fs') ->
  (forall f g, In f fs -> In g fs ->
               candidate_key f = Some k -> candidate_key g = Some k ->
               is_embed (dna_path f) = is_embed (dna_path g) ->
               candidate_record f = candidate_record g) ->
  retained k fs = retained k fs'.
Proof.
  intros E T. unfold retained.
  pose proof (scan_entry_same_files fs fs' k E) as H.
  destruct (lookup k (scan fs)) as [[s r]|];
    destruct (lookup k (scan fs')) as [[s' r']|]; try contradiction.
  - destruct H as [_ [f [f' [F [F' [K [K' [S [R R']]]]]]]]].
    pose proof (T f f' F F' K K' S) as Q. simpl. congruence.
  - reflexivity.
Qed.

Lemma retained_order_independent_witness :
  retained "meta-llama_Llama-3-8B" [sample_plain_file; sample_embed_file]
  = retained "meta-llama_Llama-3-8B" [sample_embed_file; sample_plain_file].
Proof.
  apply (retained_order_independent
           [sample_plain_file; sample_embed_file]
           [sample_embed_file; sample_plain_file]).
  - intro f. simpl. tauto.
  - intros f g [<-|[<-|[]]] [<-|[<-|[]]] _ _ S;
      first [reflexivity | discriminate S].
Defined.
